(** * PSMoveService: the server network manager

    A shallow embedding of [src/psmoveservice/ServerNetworkManager.cpp]:
    the per-client connection ([ClientConnection]) with its two outbound
    queues, and the network manager ([ServerNetworkManagerImpl]) with the
    connection registry, the UDP rendezvous and the bounded [poll] loop.

    Conventions of the embedding.
    - Boost.Asio is modelled by the list of asynchronous operations that have
      been handed to the [io_service] and whose completion handler has not
      run yet.  A function that calls [async_*] returns the operations it
      initiates; a completion removes the operation and runs the bound
      handler.
    - [ResponsePtr] is a [boost::shared_ptr]: an address in a store of
      [Response] objects, so that [set_request_id] is visible through every
      alias.
    - [std::map<int, ClientConnectionPtr>] is an association list kept in
      increasing key order, which is the order the iterators visit.
    - The [DEBUG && (cout << ...)] lines only print; they are left out.
      [int] overflow of the connection counter and exceptions thrown by
      Asio are outside the model. *)

From stdpp Require Import base numbers list gmap.
From Stdlib Require Import Init.Byte.

Open Scope Z_scope.

(** ** Messages and the wire format *)

Inductive ResponseType := GENERAL_RESULT | CONNECTION_INFO.
Inductive ResultCode := RESULT_OK | RESULT_ERROR.

(** Modelled from the spec: [PSMoveDataFrame.pb.h] is not among the sources.
    A response carries the originating request identifier (or the sentinel
    [-1] of an unsolicited notification) and an opaque payload; the fields
    below are the ones [ServerNetworkManager.cpp] writes. *)
Record Response := {
  rsp_type : ResponseType;
  request_id : Z;
  result_code : ResultCode;
  tcp_connection_id : option Z;
  rsp_payload : list byte
}.

Definition set_request_id (v : Z) (r : Response) : Response :=
  {| rsp_type := rsp_type r; request_id := v; result_code := result_code r;
     tcp_connection_id := tcp_connection_id r; rsp_payload := rsp_payload r |}.

(** Modelled from the spec: a telemetry frame is an opaque serializable blob
    with a size and a byte encoding; it is represented by that encoding. *)
Record ControllerDataFrame := { dataframe_bytes : list byte }.

Definition ByteSize (f : ControllerDataFrame) : nat := length (dataframe_bytes f).

(** Modelled from the spec: [packedmessage.h] ([HEADER_SIZE], the header
    codec), [DataFrameInterface.h] ([MAX_DATA_FRAME_MESSAGE_SIZE]), the
    protobuf serializers and the request handler are not among the sources.
    They are parameters; the only law is that the header has its fixed
    width. *)
Class Wire := {
  HEADER_SIZE : nat;
  MAX_DATA_FRAME_MESSAGE_SIZE : nat;
  encode_header : nat → list byte;
  decode_header : list byte → nat;
  encode_header_length : ∀ n, length (encode_header n) = HEADER_SIZE;
  serialize_response : Response → list byte;
  Request : Type;
  parse_request : list byte → option Request;
  handle_request : Z → Request → Response
}.

(** [ResponsePtr] is the address of a shared [Response] object, and
    [ResponseStore] holds the objects. *)
Abbreviation ResponsePtr := positive.
Abbreviation ResponseStore := (gmap positive Response).

Record udp_endpoint := { ip_address : Z; ip_port : Z }.

(** [udp::endpoint()]: the default-constructed endpoint, 0.0.0.0:0. *)
Definition default_endpoint : udp_endpoint := {| ip_address := 0; ip_port := 0 |}.

(** An asynchronous operation handed to the [io_service].  The first
    argument of a per-connection operation is the connection whose method
    is bound as the handler. *)
Inductive AsyncOp :=
| TcpAccept (conn : Z)
| TcpReadHeader (conn : Z)
| TcpReadBody (conn : Z) (msg_len : nat)
| TcpWrite (conn : Z) (data : list byte)
| UdpSendDataFrame (conn : Z) (data : list byte) (dest : udp_endpoint)
| UdpSendConnectionResult (result : bool) (dest : udp_endpoint)
| UdpReceiveConnectionId.

Section Codec.
Context `{W : Wire}.

(** Modelled from the spec: [PackedMessage::pack] into a growable buffer,
    the header followed by the body. *)
Definition pack (body : list byte) : list byte :=
  encode_header (length body) ++ body.

(** Modelled from the spec: [PackedMessage::pack] into a fixed buffer.
    It fails, leaving the buffer alone, when header and body do not fit;
    otherwise it overwrites the front of the buffer and leaves the bytes
    behind the body as they were. *)
Definition pack_into (body : list byte) (buffer : list byte) (buffer_size : nat)
  : bool * list byte :=
  if decide (HEADER_SIZE + length body ≤ buffer_size)%nat
  then (true, encode_header (length body) ++ body
                ++ drop (HEADER_SIZE + length body) buffer)
  else (false, buffer).

(** [sizeof(m_dataframe_write_buffer)] *)
Definition dataframe_buffer_size : nat :=
  (HEADER_SIZE + MAX_DATA_FRAME_MESSAGE_SIZE)%nat.
End Codec.

(** ** ClientConnection *)

Inductive error_code := ec_ok | ec_failed.

Record ClientConnection := {
  m_connection_id : Z;
  m_tcp_socket_is_open : bool;
  m_udp_remote_endpoint : udp_endpoint;
  m_request_read_buffer : list byte;
  m_response_write_buffer : list byte;
  m_dataframe_write_buffer : list byte;
  m_pending_responses : list ResponsePtr;
  m_pending_dataframes : list ControllerDataFrame;
  m_connection_stopped : bool;
  m_has_pending_tcp_write : bool;
  m_has_pending_udp_write : bool
}.

Definition with_udp_remote_endpoint (v : udp_endpoint) (c : ClientConnection) :=
  let '(Build_ClientConnection i o _ rb wb db pr pd st tw uw) := c in
  Build_ClientConnection i o v rb wb db pr pd st tw uw.
Definition with_tcp_socket_is_open (v : bool) (c : ClientConnection) :=
  let '(Build_ClientConnection i _ e rb wb db pr pd st tw uw) := c in
  Build_ClientConnection i v e rb wb db pr pd st tw uw.
Definition with_request_read_buffer (v : list byte) (c : ClientConnection) :=
  let '(Build_ClientConnection i o e _ wb db pr pd st tw uw) := c in
  Build_ClientConnection i o e v wb db pr pd st tw uw.
Definition with_response_write_buffer (v : list byte) (c : ClientConnection) :=
  let '(Build_ClientConnection i o e rb _ db pr pd st tw uw) := c in
  Build_ClientConnection i o e rb v db pr pd st tw uw.
Definition with_dataframe_write_buffer (v : list byte) (c : ClientConnection) :=
  let '(Build_ClientConnection i o e rb wb _ pr pd st tw uw) := c in
  Build_ClientConnection i o e rb wb v pr pd st tw uw.
Definition with_pending_responses (v : list ResponsePtr) (c : ClientConnection) :=
  let '(Build_ClientConnection i o e rb wb db _ pd st tw uw) := c in
  Build_ClientConnection i o e rb wb db v pd st tw uw.
Definition with_pending_dataframes (v : list ControllerDataFrame) (c : ClientConnection) :=
  let '(Build_ClientConnection i o e rb wb db pr _ st tw uw) := c in
  Build_ClientConnection i o e rb wb db pr v st tw uw.
Definition with_connection_stopped (v : bool) (c : ClientConnection) :=
  let '(Build_ClientConnection i o e rb wb db pr pd _ tw uw) := c in
  Build_ClientConnection i o e rb wb db pr pd v tw uw.
Definition with_has_pending_tcp_write (v : bool) (c : ClientConnection) :=
  let '(Build_ClientConnection i o e rb wb db pr pd st _ uw) := c in
  Build_ClientConnection i o e rb wb db pr pd st v uw.
Definition with_has_pending_udp_write (v : bool) (c : ClientConnection) :=
  let '(Build_ClientConnection i o e rb wb db pr pd st tw _) := c in
  Build_ClientConnection i o e rb wb db pr pd st tw v.

(** A value held in a C++ [unsigned], taken as 32 bits wide: arithmetic on
    it wraps around. *)
Definition as_unsigned (n : nat) : nat := N.to_nat (N.of_nat n `mod` 2 ^ 32)%N.

(** What an asynchronous read stores: the received bytes over the front of
    the target, never beyond its end. *)
Definition fill (target data : list byte) : list byte :=
  take (length target) (data ++ drop (length data) target).

(** The message a [ResponsePtr] points to.  A shared pointer keeps its
    object alive, so the lookup succeeds on every pointer the server holds;
    a pointer outside the store serializes as the empty message. *)
Definition pointee_bytes `{W : Wire} (store : ResponseStore) (p : ResponsePtr) : list byte :=
  match store !! p with
  | Some r => serialize_response r
  | None => []
  end.

Section Connection.
Context `{W : Wire}.

(** The private constructor, with [next_connection_id] passed in. *)
Definition new_connection (id : Z) : ClientConnection :=
  {| m_connection_id := id;
     m_tcp_socket_is_open := false;
     m_udp_remote_endpoint := default_endpoint;
     m_request_read_buffer := [];
     m_response_write_buffer := [];
     m_dataframe_write_buffer := replicate dataframe_buffer_size x00;
     m_pending_responses := [];
     m_pending_dataframes := [];
     m_connection_stopped := false;
     m_has_pending_tcp_write := false;
     m_has_pending_udp_write := false |}.

Definition stop (c : ClientConnection) : ClientConnection :=
  let c := if m_tcp_socket_is_open c then with_tcp_socket_is_open false c else c in
  with_has_pending_udp_write false
    (with_has_pending_tcp_write false (with_connection_stopped true c)).

Definition bind_udp_remote_endpoint (connecting_remote_endpoint : udp_endpoint)
    (c : ClientConnection) : ClientConnection :=
  with_udp_remote_endpoint connecting_remote_endpoint c.

Definition has_pending_udp_write (c : ClientConnection) : bool :=
  m_has_pending_udp_write c.

Definition has_queued_controller_data_frames (c : ClientConnection) : bool :=
  bool_decide (0 < length (m_pending_dataframes c))%nat.

Definition add_tcp_response_to_write_queue (response : ResponsePtr)
    (c : ClientConnection) : ClientConnection :=
  with_pending_responses (m_pending_responses c ++ [response]) c.

Definition start_tcp_write_queued_response (store : ResponseStore)
    (c : ClientConnection) : bool * ClientConnection * list AsyncOp :=
  if m_connection_stopped c then (false, c, [])
  else if m_has_pending_tcp_write c then (true, c, [])
  else match m_pending_responses c with
       | [] => (false, c, [])
       | response :: _ =>
           let buffer := pack (pointee_bytes store response) in
           (true,
            with_has_pending_tcp_write true (with_response_write_buffer buffer c),
            [TcpWrite (m_connection_id c) buffer])
       end.

Definition add_controller_data_frame_to_write_queue (data_frame : ControllerDataFrame)
    (c : ClientConnection) : ClientConnection :=
  with_pending_dataframes (m_pending_dataframes c ++ [data_frame]) c.

Definition start_udp_write_queued_controller_data_frame (c : ClientConnection)
    : bool * ClientConnection * list AsyncOp :=
  if m_connection_stopped c then (false, c, [])
  else if m_has_pending_udp_write c then (true, c, [])
  else match m_pending_dataframes c with
       | [] => (false, c, [])
       | dataframe :: _ =>
           match pack_into (dataframe_bytes dataframe)
                   (m_dataframe_write_buffer c) dataframe_buffer_size with
           | (true, buffer) =>
               (true,
                with_has_pending_udp_write true (with_dataframe_write_buffer buffer c),
                [UdpSendDataFrame (m_connection_id c)
                   (take dataframe_buffer_size buffer)
                   (m_udp_remote_endpoint c)])
           | (false, buffer) =>
               (false, with_dataframe_write_buffer buffer c, [])
           end
       end.

(** [send_connection_info]: a new [Response] object is allocated, filled
    in, queued, and a write is attempted. *)
Definition send_connection_info (store : ResponseStore) (c : ClientConnection)
    : ResponseStore * ClientConnection * list AsyncOp :=
  let response : ResponsePtr := fresh (dom store) in
  let store :=
    <[response := {| rsp_type := CONNECTION_INFO;
                     request_id := -1;
                     result_code := RESULT_OK;
                     tcp_connection_id := Some (m_connection_id c);
                     rsp_payload := [] |}]> store in
  let c := add_tcp_response_to_write_queue response c in
  let '(_, c, ops) := start_tcp_write_queued_response store c in
  (store, c, ops).

Definition start_tcp_read_request_header (c : ClientConnection)
    : ClientConnection * list AsyncOp :=
  (with_request_read_buffer (resize HEADER_SIZE x00 (m_request_read_buffer c)) c,
   [TcpReadHeader (m_connection_id c)]).

Definition start (store : ResponseStore) (c : ClientConnection)
    : ResponseStore * ClientConnection * list AsyncOp :=
  let c := with_connection_stopped false c in
  let '(store, c, ops1) := send_connection_info store c in
  let '(c, ops2) := start_tcp_read_request_header c in
  (store, c, ops1 ++ ops2).

(** [msg_len] is an [unsigned], and so is the sum given to [resize],
    [HEADER_SIZE] being taken as an [unsigned] too (its declaration, in
    [packedmessage.h], is not among the sources): a declared length within
    [HEADER_SIZE] of [2 ^ 32] wraps around to a buffer shorter than the
    header.  The source then takes the address of
    [m_request_read_buffer[HEADER_SIZE]], past the end of the vector, and
    reads [msg_len] bytes into it; that is undefined behaviour, which the
    embedding does not follow: here the read stores nothing beyond the end
    of the buffer. *)
Definition start_read_body (msg_len : nat) (c : ClientConnection)
    : ClientConnection * list AsyncOp :=
  (with_request_read_buffer
     (resize (as_unsigned (HEADER_SIZE + msg_len)) x00 (m_request_read_buffer c)) c,
   [TcpReadBody (m_connection_id c) msg_len]).

(** The header bytes have been read into [m_request_read_buffer] when the
    handler runs without error. *)
Definition handle_tcp_read_request_header (error : error_code) (received : list byte)
    (c : ClientConnection) : ClientConnection * list AsyncOp :=
  match error with
  | ec_ok =>
      let c := with_request_read_buffer (fill (m_request_read_buffer c) received) c in
      let msg_len := as_unsigned (decode_header (m_request_read_buffer c)) in
      start_read_body msg_len c
  | ec_failed => (c, [])
  end.

Definition connection_handle_request (store : ResponseStore) (c : ClientConnection)
    : ResponseStore * ClientConnection * list AsyncOp :=
  match parse_request (drop HEADER_SIZE (m_request_read_buffer c)) with
  | Some request =>
      let response : ResponsePtr := fresh (dom store) in
      let store := <[response := handle_request (m_connection_id c) request]> store in
      let c := add_tcp_response_to_write_queue response c in
      let '(_, c, ops) := start_tcp_write_queued_response store c in
      (store, c, ops)
  | None => (store, c, [])
  end.

(** The body bytes have been read behind the header when the handler runs
    without error. *)
Definition handle_read_body (error : error_code) (received : list byte)
    (store : ResponseStore) (c : ClientConnection)
    : ResponseStore * ClientConnection * list AsyncOp :=
  match error with
  | ec_ok =>
      let buffer := m_request_read_buffer c in
      let c := with_request_read_buffer
                 (take HEADER_SIZE buffer ++ fill (drop HEADER_SIZE buffer) received) c in
      let '(store, c, ops1) := connection_handle_request store c in
      let '(c, ops2) := start_tcp_read_request_header c in
      (store, c, ops1 ++ ops2)
  | ec_failed => (store, c, [])
  end.

Definition handle_write_response_complete (ec : error_code) (store : ResponseStore)
    (c : ClientConnection) : ClientConnection * list AsyncOp :=
  if m_connection_stopped c then (c, [])
  else match ec with
       | ec_ok =>
           let c := with_has_pending_tcp_write false c in
           let c := with_pending_responses (tail (m_pending_responses c)) c in
           let '(_, c, ops) := start_tcp_write_queued_response store c in
           (c, ops)
       | ec_failed => (stop c, [])
       end.

Definition handle_udp_write_controller_data_frame_complete (ec : error_code)
    (c : ClientConnection) : ClientConnection :=
  if m_connection_stopped c then c
  else match ec with
       | ec_ok =>
           let c := with_has_pending_udp_write false c in
           with_pending_dataframes (tail (m_pending_dataframes c)) c
       | ec_failed => stop c
       end.
End Connection.

(** The array [m_dataframe_write_buffer] has its declared size. *)
Definition well_sized `{W : Wire} (c : ClientConnection) : Prop :=
  length (m_dataframe_write_buffer c) = dataframe_buffer_size.

(** ** The connection registry: [std::map<int, ClientConnectionPtr>] *)

Section Registry.
Context {V : Type}.

Fixpoint map_find (k : Z) (m : list (Z * V)) : option V :=
  match m with
  | [] => None
  | (k', v) :: m' => if decide (k = k') then Some v else map_find k m'
  end.

(** [std::map::insert]: the entry goes to its place in key order; an
    existing entry with the same key is kept. *)
Fixpoint map_insert (k : Z) (v : V) (m : list (Z * V)) : list (Z * V) :=
  match m with
  | [] => [(k, v)]
  | (k', v') :: m' =>
      if decide (k < k') then (k, v) :: m
      else if decide (k = k') then m
      else (k', v') :: map_insert k v m'
  end.

(** The effect, seen through the map, of changing the object an entry
    points to. *)
Fixpoint map_set (k : Z) (v : V) (m : list (Z * V)) : list (Z * V) :=
  match m with
  | [] => []
  | (k', v') :: m' =>
      if decide (k = k') then (k', v) :: m' else (k', v') :: map_set k v m'
  end.
End Registry.

(** ** ServerNetworkManagerImpl *)

(** The fields of the class, the static counter
    [ClientConnection::next_connection_id], the response objects the shared
    pointers refer to, and the operations outstanding at the
    [io_service]. *)
Record ServerNetworkManagerImpl := {
  connections : list (Z * ClientConnection);
  next_connection_id : Z;
  udp_connecting_remote_endpoint : udp_endpoint;
  m_udp_connection_id_read_buffer : Z;
  m_udp_connection_result_write_buffer : bool;
  responses : ResponseStore;
  io_service : list AsyncOp
}.

Definition with_connections (v : list (Z * ClientConnection)) (s : ServerNetworkManagerImpl) :=
  let '(Build_ServerNetworkManagerImpl _ n e rb wb r io) := s in
  Build_ServerNetworkManagerImpl v n e rb wb r io.
Definition with_next_connection_id (v : Z) (s : ServerNetworkManagerImpl) :=
  let '(Build_ServerNetworkManagerImpl c _ e rb wb r io) := s in
  Build_ServerNetworkManagerImpl c v e rb wb r io.
Definition with_udp_connecting_remote_endpoint (v : udp_endpoint) (s : ServerNetworkManagerImpl) :=
  let '(Build_ServerNetworkManagerImpl c n _ rb wb r io) := s in
  Build_ServerNetworkManagerImpl c n v rb wb r io.
Definition with_udp_connection_id_read_buffer (v : Z) (s : ServerNetworkManagerImpl) :=
  let '(Build_ServerNetworkManagerImpl c n e _ wb r io) := s in
  Build_ServerNetworkManagerImpl c n e v wb r io.
Definition with_udp_connection_result_write_buffer (v : bool) (s : ServerNetworkManagerImpl) :=
  let '(Build_ServerNetworkManagerImpl c n e rb _ r io) := s in
  Build_ServerNetworkManagerImpl c n e rb v r io.
Definition with_responses (v : ResponseStore) (s : ServerNetworkManagerImpl) :=
  let '(Build_ServerNetworkManagerImpl c n e rb wb _ io) := s in
  Build_ServerNetworkManagerImpl c n e rb wb v io.
Definition with_io_service (v : list AsyncOp) (s : ServerNetworkManagerImpl) :=
  let '(Build_ServerNetworkManagerImpl c n e rb wb r _) := s in
  Build_ServerNetworkManagerImpl c n e rb wb r v.

(** Hand operations to the [io_service]. *)
Definition async (ops : list AsyncOp) (s : ServerNetworkManagerImpl) :=
  with_io_service (io_service s ++ ops) s.

Section Server.
Context `{W : Wire}.

(** The state the constructor leaves; the two rendezvous buffers are not
    initialised by it. *)
Definition new_server (id_buffer : Z) (result_buffer : bool) : ServerNetworkManagerImpl :=
  {| connections := [];
     next_connection_id := 0;
     udp_connecting_remote_endpoint := default_endpoint;
     m_udp_connection_id_read_buffer := id_buffer;
     m_udp_connection_result_write_buffer := result_buffer;
     responses := ∅;
     io_service := [] |}.

(** A method called through the [ClientConnectionPtr] of a registry
    entry, or by a handler bound to the connection.  The registry loses
    entries only at shutdown, so the connection of an outstanding handler is
    found in it. *)
Definition call (id : Z)
    (method : ResponseStore → ClientConnection
              → ResponseStore * ClientConnection * list AsyncOp)
    (s : ServerNetworkManagerImpl) : ServerNetworkManagerImpl :=
  match map_find id (connections s) with
  | Some c =>
      let '(store, c, ops) := method (responses s) c in
      async ops (with_responses store (with_connections (map_set id c (connections s)) s))
  | None => s
  end.

Definition start_udp_receive_connection_id (s : ServerNetworkManagerImpl) :=
  async [UdpReceiveConnectionId] s.

Definition start_tcp_accept (s : ServerNetworkManagerImpl) : ServerNetworkManagerImpl :=
  let id := next_connection_id s in
  let new_connection := new_connection id in
  let s := with_next_connection_id (id + 1) s in
  let s := with_connections (map_insert id new_connection (connections s)) s in
  let s := async [TcpAccept id] s in
  start_udp_receive_connection_id s.

Definition handle_tcp_accept (connection : Z) (error : error_code)
    (s : ServerNetworkManagerImpl) : ServerNetworkManagerImpl :=
  match error with
  | ec_ok => start_tcp_accept (call connection start s)
  | ec_failed => s
  end.

Definition start_udp_send_connection_result (success : bool)
    (s : ServerNetworkManagerImpl) : ServerNetworkManagerImpl :=
  let s := with_udp_connection_result_write_buffer success s in
  async [UdpSendConnectionResult (m_udp_connection_result_write_buffer s)
           (udp_connecting_remote_endpoint s)] s.

Definition handle_udp_read_connection_id (error : error_code)
    (s : ServerNetworkManagerImpl) : ServerNetworkManagerImpl :=
  match error with
  | ec_ok =>
      match map_find (m_udp_connection_id_read_buffer s) (connections s) with
      | Some connection =>
          let connection :=
            bind_udp_remote_endpoint (udp_connecting_remote_endpoint s) connection in
          let s := with_connections
                     (map_set (m_udp_connection_id_read_buffer s) connection
                        (connections s)) s in
          start_udp_send_connection_result true s
      | None => start_udp_send_connection_result false s
      end
  | ec_failed => s
  end.

Definition handle_udp_write_connection_result (error : error_code)
    (s : ServerNetworkManagerImpl) : ServerNetworkManagerImpl :=
  start_udp_receive_connection_id s.

(** The loop of [start_udp_queued_data_frame_write] over the registry,
    leaving at the first connection that reports a write in progress. *)
Fixpoint start_udp_queued_data_frame_write_loop (conns : list (Z * ClientConnection))
    : list (Z * ClientConnection) * list AsyncOp :=
  match conns with
  | [] => ([], [])
  | (id, connection) :: rest =>
      let '(write_in_progress, connection, ops) :=
        start_udp_write_queued_controller_data_frame connection in
      if write_in_progress then ((id, connection) :: rest, ops)
      else
        let '(rest, ops') := start_udp_queued_data_frame_write_loop rest in
        ((id, connection) :: rest, ops ++ ops')
  end.

Definition start_udp_queued_data_frame_write (s : ServerNetworkManagerImpl) :=
  let '(conns, ops) := start_udp_queued_data_frame_write_loop (connections s) in
  async ops (with_connections conns s).

(** The loop of [has_queued_controller_data_frames_ready_to_start] with its
    two flags. *)
Fixpoint ready_to_start_loop (conns : list (Z * ClientConnection))
    (has_queued_write_ready_to_start udp_socket_available : bool) : bool * bool :=
  match conns with
  | [] => (has_queued_write_ready_to_start, udp_socket_available)
  | (_, connection) :: rest =>
      if has_pending_udp_write connection
      then (has_queued_write_ready_to_start, false)
      else if has_queued_controller_data_frames connection
           then ready_to_start_loop rest true udp_socket_available
           else ready_to_start_loop rest has_queued_write_ready_to_start
                  udp_socket_available
  end.

Definition has_queued_controller_data_frames_ready_to_start
    (s : ServerNetworkManagerImpl) : bool :=
  let '(has_queued_write_ready_to_start, udp_socket_available) :=
    ready_to_start_loop (connections s) false true in
  udp_socket_available && has_queued_write_ready_to_start.

(** Every connection is stopped and the registry cleared.  The objects live
    on in the handlers that hold them; shutdown ends the life of the server
    and is not a step of the transition system below. *)
Definition close_all_connections (s : ServerNetworkManagerImpl) :=
  let s := with_connections (map (λ entry, (entry.1, stop entry.2)) (connections s)) s in
  with_connections [] s.

Definition notify (response : ResponsePtr) (store : ResponseStore)
    (c : ClientConnection) : ResponseStore * ClientConnection * list AsyncOp :=
  let c := add_tcp_response_to_write_queue response c in
  let '(_, c, ops) := start_tcp_write_queued_response store c in
  (store, c, ops).

Definition send_notification (connection_id : Z) (response : ResponsePtr)
    (s : ServerNetworkManagerImpl) : ServerNetworkManagerImpl :=
  let entry := map_find connection_id (connections s) in
  let s := with_responses (alter (set_request_id (-1)) response (responses s)) s in
  match entry with
  | Some _ => call connection_id (notify response) s
  | None => s
  end.

Definition send_notification_to_all_clients (response : ResponsePtr)
    (s : ServerNetworkManagerImpl) : ServerNetworkManagerImpl :=
  let s := with_responses (alter (set_request_id (-1)) response (responses s)) s in
  foldl (λ s entry, call entry.1 (notify response) s) s (connections s).

Definition send_controller_data_frame (connection_id : Z)
    (data_frame : ControllerDataFrame) (s : ServerNetworkManagerImpl) :=
  match map_find connection_id (connections s) with
  | Some connection =>
      let connection := add_controller_data_frame_to_write_queue data_frame connection in
      let s := with_connections (map_set connection_id connection (connections s)) s in
      start_udp_queued_data_frame_write s
  | None => s
  end.
End Server.

(** ** The bounded [poll] loop *)

(** A [while] loop; the fuel bounds the number of times the condition is
    evaluated and [None] means it ran out. *)
Fixpoint while {S : Type} (fuel : nat) (cond : S → bool) (body : S → S) (s : S)
    : option S :=
  match fuel with
  | O => None
  | Datatypes.S fuel => if cond s then while fuel cond body (body s) else Some s
  end.

Section Poll.
Context `{W : Wire} {E : Type}.

(** [io_service.poll()]: it runs the handlers of whatever has completed.
    What has completed is decided outside the program, by an environment
    of type [E]. *)
Variable io_service_poll : E → ServerNetworkManagerImpl → E * ServerNetworkManagerImpl.

(** The variables of [poll]; [polled] counts the calls of
    [io_service.poll()]. *)
Record PollFrame := {
  poll_server : ServerNetworkManagerImpl;
  poll_env : E;
  keep_polling : bool;
  iteration_count : Z;
  polled : nat
}.

Definition k_max_iteration_count : Z := 32.

Definition poll_cond (f : PollFrame) : bool :=
  keep_polling f && bool_decide (iteration_count f < k_max_iteration_count).

Definition poll_body (f : PollFrame) : PollFrame :=
  let s := start_udp_queued_data_frame_write (poll_server f) in
  let '(env, s) := io_service_poll (poll_env f) s in
  {| poll_server := s;
     poll_env := env;
     keep_polling := has_queued_controller_data_frames_ready_to_start s;
     iteration_count := iteration_count f + 1;
     polled := S (polled f) |}.

Definition poll (fuel : nat) (env : E) (s : ServerNetworkManagerImpl)
    : option PollFrame :=
  while fuel poll_cond poll_body
    {| poll_server := s; poll_env := env; keep_polling := true;
       iteration_count := 0; polled := 0 |}.
End Poll.

(** ** Completions *)

(** How an asynchronous operation ends. *)
Inductive IoResult :=
| io_failed
| io_done
| io_read (data : list byte)
| io_received (id : Z) (sender : udp_endpoint).

(** What a receive does when it takes a datagram ([async_receive_from],
    lines 573-576): the identifier goes to [m_udp_connection_id_read_buffer]
    and the sender to [udp_connecting_remote_endpoint]. *)
Definition store_datagram (datagram : Z * udp_endpoint) (s : ServerNetworkManagerImpl)
    : ServerNetworkManagerImpl :=
  with_udp_connecting_remote_endpoint datagram.2
    (with_udp_connection_id_read_buffer datagram.1 s).

Section Completions.
Context `{W : Wire}.

(** The handler bound to an operation, run with the result of the
    operation.  A result that does not fit the operation delivers
    nothing.

    Every rendezvous receive is given the same two members as its target,
    [m_udp_connection_id_read_buffer] and [udp_connecting_remote_endpoint],
    and its handler reads them when it runs.  [io_received id sender] is a
    receive that stores its datagram and whose handler runs before any other
    receive stores; what happens when several receives take a datagram
    before their handlers run is [receive_datagrams] below. *)
Definition run_handler (op : AsyncOp) (r : IoResult) (s : ServerNetworkManagerImpl)
    : option ServerNetworkManagerImpl :=
  match op, r with
  | TcpAccept id, io_done =>
      let s := call id (λ store c, (store, with_tcp_socket_is_open true c, [])) s in
      Some (handle_tcp_accept id ec_ok s)
  | TcpAccept id, io_failed => Some (handle_tcp_accept id ec_failed s)
  | TcpReadHeader id, io_read data =>
      Some (call id (λ store c,
                       let '(c, ops) := handle_tcp_read_request_header ec_ok data c in
                       (store, c, ops)) s)
  | TcpReadHeader id, io_failed =>
      Some (call id (λ store c,
                       let '(c, ops) := handle_tcp_read_request_header ec_failed [] c in
                       (store, c, ops)) s)
  | TcpReadBody id _, io_read data => Some (call id (handle_read_body ec_ok data) s)
  | TcpReadBody id _, io_failed => Some (call id (handle_read_body ec_failed []) s)
  | TcpWrite id _, io_done =>
      Some (call id (λ store c,
                       let '(c, ops) := handle_write_response_complete ec_ok store c in
                       (store, c, ops)) s)
  | TcpWrite id _, io_failed =>
      Some (call id (λ store c,
                       let '(c, ops) := handle_write_response_complete ec_failed store c in
                       (store, c, ops)) s)
  | UdpSendDataFrame id _ _, io_done =>
      Some (call id (λ store c,
                       (store, handle_udp_write_controller_data_frame_complete ec_ok c, []))
              s)
  | UdpSendDataFrame id _ _, io_failed =>
      Some (call id (λ store c,
                       (store,
                        handle_udp_write_controller_data_frame_complete ec_failed c, []))
              s)
  | UdpSendConnectionResult _ _, io_done =>
      Some (handle_udp_write_connection_result ec_ok s)
  | UdpSendConnectionResult _ _, io_failed =>
      Some (handle_udp_write_connection_result ec_failed s)
  | UdpReceiveConnectionId, io_received id sender =>
      Some (handle_udp_read_connection_id ec_ok (store_datagram (id, sender) s))
  | UdpReceiveConnectionId, io_failed => Some (handle_udp_read_connection_id ec_failed s)
  | _, _ => None
  end.

(** The [n]-th outstanding operation completes with result [r]. *)
Definition complete (s : ServerNetworkManagerImpl) (completion : nat * IoResult)
    : ServerNetworkManagerImpl :=
  let '(n, r) := completion in
  match io_service s !! n with
  | Some op =>
      match run_handler op r (with_io_service (delete n (io_service s)) s) with
      | Some s' => s'
      | None => s
      end
  | None => s
  end.

(** A scripted environment: each call of [io_service.poll()] takes the
    next batch of completions. *)
Definition Script := list (list (nat * IoResult)).

Definition scripted_poll (script : Script) (s : ServerNetworkManagerImpl)
    : Script * ServerNetworkManagerImpl :=
  match script with
  | [] => ([], s)
  | batch :: script => (script, foldl complete s batch)
  end.
End Completions.

(** ** The server as a transition system *)

Inductive Event :=
| ev_new_response (r : Response)
| ev_send_notification (connection_id : Z) (response : ResponsePtr)
| ev_send_notification_to_all_clients (response : ResponsePtr)
| ev_send_controller_data_frame (connection_id : Z) (data_frame : ControllerDataFrame)
| ev_update (script : Script).

Section Transitions.
Context `{W : Wire}.

(** [ServerNetworkManager::startup] *)
Definition startup (s : ServerNetworkManagerImpl) : ServerNetworkManagerImpl :=
  start_tcp_accept s.

(** [ServerNetworkManager::update], against a scripted environment. *)
Definition update (script : Script) (s : ServerNetworkManagerImpl)
    : ServerNetworkManagerImpl :=
  match poll scripted_poll (S (Z.to_nat k_max_iteration_count)) script s with
  | Some f => poll_server f
  | None => s
  end.

(** The calls the owning process makes after [startup].  [ev_new_response]
    is the caller allocating a response object before it sends it. *)
Definition step (s : ServerNetworkManagerImpl) (ev : Event) : ServerNetworkManagerImpl :=
  match ev with
  | ev_new_response r =>
      with_responses (<[fresh (dom (responses s)) := r]> (responses s)) s
  | ev_send_notification id response => send_notification id response s
  | ev_send_notification_to_all_clients response =>
      send_notification_to_all_clients response s
  | ev_send_controller_data_frame id data_frame =>
      send_controller_data_frame id data_frame s
  | ev_update script => update script s
  end.

Definition run (events : list Event) (s : ServerNetworkManagerImpl) :=
  foldl step s events.

Definition reachable (s : ServerNetworkManagerImpl) : Prop :=
  ∃ id_buffer result_buffer events,
    s = run events (startup (new_server id_buffer result_buffer)).
End Transitions.

(** Outstanding operations of each kind on the shared UDP socket. *)
Definition is_udp_write (op : AsyncOp) : bool :=
  match op with
  | UdpSendDataFrame _ _ _ | UdpSendConnectionResult _ _ => true
  | _ => false
  end.

Definition is_udp_receive (op : AsyncOp) : bool :=
  match op with UdpReceiveConnectionId => true | _ => false end.

Definition is_connection_result (op : AsyncOp) : bool :=
  match op with UdpSendConnectionResult _ _ => true | _ => false end.

Definition outstanding (kind : AsyncOp → bool) (s : ServerNetworkManagerImpl) : nat :=
  length (filter (λ op, kind op = true) (io_service s)).

(** ** Datagrams on the rendezvous socket *)

(** The operations left when the [n] oldest receives have completed. *)
Fixpoint remove_receives (n : nat) (ops : list AsyncOp) : list AsyncOp :=
  match ops with
  | [] => []
  | op :: ops' =>
      match n with
      | O => op :: ops'
      | S n' =>
          if is_udp_receive op then remove_receives n' ops'
          else op :: remove_receives n ops'
      end
  end.

(** Datagrams that arrive between two calls of [io_service.poll()].  Each
    is taken by an outstanding receive, the oldest first, which stores it in
    the two members; a datagram that finds no receive outstanding waits in
    the socket.  A handler is only ever called from [io_service.poll()] (the
    note at line 144), so the handlers of the receives that took a datagram
    run afterwards, one after the other, each reading the two members. *)
Definition receive_datagrams `{W : Wire} (datagrams : list (Z * udp_endpoint))
    (s : ServerNetworkManagerImpl) : ServerNetworkManagerImpl :=
  let taken := take (outstanding is_udp_receive s) datagrams in
  let s := foldl (λ s datagram, store_datagram datagram s) s taken in
  let s := with_io_service (remove_receives (length taken) (io_service s)) s in
  Nat.iter (length taken) (handle_udp_read_connection_id ec_ok) s.

(** ** One connection and its transport *)

Definition tcp_writes (ops : list AsyncOp) : list (list byte) :=
  omap (λ op, match op with TcpWrite _ data => Some data | _ => None end) ops.

Definition udp_writes (ops : list AsyncOp) : list (list byte) :=
  omap (λ op, match op with UdpSendDataFrame _ data _ => Some data | _ => None end) ops.

(** A connection together with the writes it has handed to the transport
    and not yet seen complete, the writes the transport has completed, in
    the order of completion, and what has been enqueued, in the order of the
    calls. *)
Record Traced := {
  conn : ClientConnection;
  tcp_in_flight : list (list byte);
  udp_in_flight : list (list byte);
  tcp_written : list (list byte);
  udp_written : list (list byte);
  responses_enqueued : list ResponsePtr;
  dataframes_enqueued : list ControllerDataFrame
}.

Inductive QueueEvent :=
| q_add_tcp_response (response : ResponsePtr)
| q_add_controller_data_frame (data_frame : ControllerDataFrame)
| q_start_tcp_write
| q_start_udp_write
| q_tcp_write_complete (ec : error_code)
| q_udp_write_complete (ec : error_code)
| q_bind_udp_remote_endpoint (endpoint : udp_endpoint)
| q_stop.

Section QueueTrace.
Context `{W : Wire}.

(** The response objects; they are not modified while this connection is
    observed. *)
Variable store : ResponseStore.

Definition traced_new (id : Z) : Traced :=
  {| conn := new_connection id;
     tcp_in_flight := []; udp_in_flight := [];
     tcp_written := []; udp_written := [];
     responses_enqueued := []; dataframes_enqueued := [] |}.

Definition completed (ec : error_code) (data : list byte) : list (list byte) :=
  match ec with ec_ok => [data] | ec_failed => [] end.

(** A completion event is delivered for the oldest outstanding write of
    its channel; without an outstanding write there is nothing to
    deliver. *)
Definition queue_step (t : Traced) (ev : QueueEvent) : Traced :=
  match ev with
  | q_add_tcp_response response =>
      {| conn := add_tcp_response_to_write_queue response (conn t);
         tcp_in_flight := tcp_in_flight t; udp_in_flight := udp_in_flight t;
         tcp_written := tcp_written t; udp_written := udp_written t;
         responses_enqueued := responses_enqueued t ++ [response];
         dataframes_enqueued := dataframes_enqueued t |}
  | q_add_controller_data_frame data_frame =>
      {| conn := add_controller_data_frame_to_write_queue data_frame (conn t);
         tcp_in_flight := tcp_in_flight t; udp_in_flight := udp_in_flight t;
         tcp_written := tcp_written t; udp_written := udp_written t;
         responses_enqueued := responses_enqueued t;
         dataframes_enqueued := dataframes_enqueued t ++ [data_frame] |}
  | q_start_tcp_write =>
      let '(_, c, ops) := start_tcp_write_queued_response store (conn t) in
      {| conn := c;
         tcp_in_flight := tcp_in_flight t ++ tcp_writes ops;
         udp_in_flight := udp_in_flight t ++ udp_writes ops;
         tcp_written := tcp_written t; udp_written := udp_written t;
         responses_enqueued := responses_enqueued t;
         dataframes_enqueued := dataframes_enqueued t |}
  | q_start_udp_write =>
      let '(_, c, ops) := start_udp_write_queued_controller_data_frame (conn t) in
      {| conn := c;
         tcp_in_flight := tcp_in_flight t ++ tcp_writes ops;
         udp_in_flight := udp_in_flight t ++ udp_writes ops;
         tcp_written := tcp_written t; udp_written := udp_written t;
         responses_enqueued := responses_enqueued t;
         dataframes_enqueued := dataframes_enqueued t |}
  | q_tcp_write_complete ec =>
      match tcp_in_flight t with
      | [] => t
      | data :: others =>
          let '(c, ops) := handle_write_response_complete ec store (conn t) in
          {| conn := c;
             tcp_in_flight := others ++ tcp_writes ops;
             udp_in_flight := udp_in_flight t ++ udp_writes ops;
             tcp_written := tcp_written t ++ completed ec data;
             udp_written := udp_written t;
             responses_enqueued := responses_enqueued t;
             dataframes_enqueued := dataframes_enqueued t |}
      end
  | q_udp_write_complete ec =>
      match udp_in_flight t with
      | [] => t
      | data :: others =>
          {| conn := handle_udp_write_controller_data_frame_complete ec (conn t);
             tcp_in_flight := tcp_in_flight t;
             udp_in_flight := others;
             tcp_written := tcp_written t;
             udp_written := udp_written t ++ completed ec data;
             responses_enqueued := responses_enqueued t;
             dataframes_enqueued := dataframes_enqueued t |}
      end
  | q_bind_udp_remote_endpoint endpoint =>
      {| conn := bind_udp_remote_endpoint endpoint (conn t);
         tcp_in_flight := tcp_in_flight t; udp_in_flight := udp_in_flight t;
         tcp_written := tcp_written t; udp_written := udp_written t;
         responses_enqueued := responses_enqueued t;
         dataframes_enqueued := dataframes_enqueued t |}
  | q_stop =>
      {| conn := stop (conn t);
         tcp_in_flight := tcp_in_flight t; udp_in_flight := udp_in_flight t;
         tcp_written := tcp_written t; udp_written := udp_written t;
         responses_enqueued := responses_enqueued t;
         dataframes_enqueued := dataframes_enqueued t |}
  end.

Definition queue_run (events : list QueueEvent) (t : Traced) : Traced :=
  foldl queue_step t events.

(** The envelope of a response, as [start_tcp_write_queued_response]
    packs it. *)
Definition response_envelope (response : ResponsePtr) : list byte :=
  pack (pointee_bytes store response).
End QueueTrace.

(** A datagram carries a frame when it starts with the envelope of the
    frame. *)
Definition carries `{W : Wire} (datagram : list byte) (f : ControllerDataFrame) : Prop :=
  take (HEADER_SIZE + ByteSize f) datagram = pack (dataframe_bytes f).

(** ** A concrete wire format

    Four header bytes holding the body length, most significant byte first,
    and room for eight body bytes in a datagram. *)

Definition byte_of_N (n : N) : byte :=
  match Byte.of_N (n `mod` 256)%N with Some b => b | None => x00 end.

Definition be32 (n : nat) : list byte :=
  let n := N.of_nat n in
  [byte_of_N (N.shiftr n 24); byte_of_N (N.shiftr n 16);
   byte_of_N (N.shiftr n 8); byte_of_N n].

Definition be32_decode (l : list byte) : nat :=
  N.to_nat (foldl (λ acc b, (acc * 256 + Byte.to_N b)%N) 0%N (take 4 l)).

Definition echo (id : Z) (request : list byte) : Response :=
  {| rsp_type := GENERAL_RESULT; request_id := id; result_code := RESULT_OK;
     tcp_connection_id := None; rsp_payload := request |}.

#[local] Instance small_wire : Wire :=
  {| HEADER_SIZE := 4;
     MAX_DATA_FRAME_MESSAGE_SIZE := 8;
     encode_header := be32;
     decode_header := be32_decode;
     encode_header_length := λ _, eq_refl;
     serialize_response := rsp_payload;
     Request := list byte;
     parse_request := Some;
     handle_request := echo |}.

(** A frame that fits a datagram of [small_wire] and one that does not. *)
Definition small_frame : ControllerDataFrame := {| dataframe_bytes := [x01; x02; x03] |}.
Definition oversize_frame : ControllerDataFrame := {| dataframe_bytes := replicate 9 xff |}.

(** ** Reading event sequences *)

Definition responses_added (events : list QueueEvent) : list ResponsePtr :=
  omap (λ ev, match ev with q_add_tcp_response p => Some p | _ => None end) events.

Definition dataframes_added (events : list QueueEvent) : list ControllerDataFrame :=
  omap (λ ev, match ev with q_add_controller_data_frame f => Some f | _ => None end) events.


(** What a stopped connection looks like, relative to the queues it had
    in [t0] and the in-flight lists of its transport there: the writes in
    flight are writes that were in flight in [t0], the oldest of them
    having completed. *)
Definition stopped_like (t0 t : Traced) (added_r : list ResponsePtr)
    (added_f : list ControllerDataFrame) : Prop :=
  m_connection_stopped (conn t) = true
  ∧ m_has_pending_tcp_write (conn t) = false
  ∧ m_has_pending_udp_write (conn t) = false
  ∧ m_pending_responses (conn t) = m_pending_responses (conn t0) ++ added_r
  ∧ m_pending_dataframes (conn t) = m_pending_dataframes (conn t0) ++ added_f
  ∧ (length (tcp_in_flight t) ≤ length (tcp_in_flight t0))%nat
  ∧ (length (udp_in_flight t) ≤ length (udp_in_flight t0))%nat
  ∧ (∃ n, tcp_in_flight t = drop n (tcp_in_flight t0))
  ∧ (∃ n, udp_in_flight t = drop n (udp_in_flight t0)).

(** The four guarded operations do nothing on connection [c]: they return
    it as it is and hand no operation to the transport. *)
Definition guarded_operations_idle `{W : Wire} (store : ResponseStore)
    (c : ClientConnection) : Prop :=
  start_tcp_write_queued_response store c = (false, c, [])
  ∧ start_udp_write_queued_controller_data_frame c = (false, c, [])
  ∧ (∀ ec, handle_write_response_complete ec store c = (c, []))
  ∧ (∀ ec, handle_udp_write_controller_data_frame_complete ec c = c).

(** ** Invariants of the two outbound queues *)

Section QueueInvariants.
Context `{W : Wire}.
Variable store : ResponseStore.

(** The response channel is idle, or is writing the head of its queue, or
    saw the write of the head complete after the connection had stopped.
    [sent] are the responses already popped. *)
Definition tcp_channel_inv (t : Traced) : Prop :=
  ∃ sent : list ResponsePtr,
    responses_enqueued t = sent ++ m_pending_responses (conn t)
    ∧ ((tcp_in_flight t = []
        ∧ m_has_pending_tcp_write (conn t) = false
        ∧ tcp_written t = response_envelope store <$> sent)
       ∨ (∃ head rest,
            m_pending_responses (conn t) = head :: rest
            ∧ tcp_in_flight t = [response_envelope store head]
            ∧ m_has_pending_tcp_write (conn t) = negb (m_connection_stopped (conn t))
            ∧ tcp_written t = response_envelope store <$> sent)
       ∨ (∃ head rest,
            m_pending_responses (conn t) = head :: rest
            ∧ tcp_in_flight t = []
            ∧ m_has_pending_tcp_write (conn t) = false
            ∧ m_connection_stopped (conn t) = true
            ∧ tcp_written t = response_envelope store <$> (sent ++ [head]))).

(** The same for the telemetry channel; a datagram is the whole transmit
    buffer, which starts with the envelope of the frame. *)
Definition udp_channel_inv (t : Traced) : Prop :=
  ∃ sent : list ControllerDataFrame,
    dataframes_enqueued t = sent ++ m_pending_dataframes (conn t)
    ∧ ((udp_in_flight t = []
        ∧ m_has_pending_udp_write (conn t) = false
        ∧ Forall2 carries (udp_written t) sent)
       ∨ (∃ head rest datagram,
            m_pending_dataframes (conn t) = head :: rest
            ∧ udp_in_flight t = [datagram]
            ∧ carries datagram head
            ∧ m_has_pending_udp_write (conn t) = negb (m_connection_stopped (conn t))
            ∧ Forall2 carries (udp_written t) sent)
       ∨ (∃ head rest,
            m_pending_dataframes (conn t) = head :: rest
            ∧ udp_in_flight t = []
            ∧ m_has_pending_udp_write (conn t) = false
            ∧ m_connection_stopped (conn t) = true
            ∧ Forall2 carries (udp_written t) (sent ++ [head]))).
End QueueInvariants.

(** ** An environment that keeps telemetry ready

    Each call of [io_service.poll()] completes the outstanding data-frame
    write, found at position 2 of the operations of [busy_server], and a
    producer enqueues one more frame on every connection. *)
Definition busy_poll (env : unit) (s : ServerNetworkManagerImpl)
    : unit * ServerNetworkManagerImpl :=
  let s := complete (W := small_wire) s (2%nat, io_done) in
  (env,
   with_connections
     (map (λ entry, (entry.1, add_controller_data_frame_to_write_queue small_frame entry.2))
        (connections s)) s).

Definition busy_server : ServerNetworkManagerImpl :=
  send_controller_data_frame (W := small_wire) 0 small_frame
    (startup (W := small_wire) (new_server 0 false)).


(** ** Reading connections and the registry *)


(** The connection-info response [send_connection_info] fills in. *)
Definition connection_info_response (id : Z) : Response :=
  {| rsp_type := CONNECTION_INFO; request_id := -1; result_code := RESULT_OK;
     tcp_connection_id := Some id; rsp_payload := [] |}.

Section Readiness.
Context `{W : Wire}.

(** The frame at the head of the telemetry queue does not fit the transmit
    buffer. *)
Definition oversize_head (c : ClientConnection) : bool :=
  match m_pending_dataframes c with
  | [] => false
  | f :: _ => bool_decide (dataframe_buffer_size < HEADER_SIZE + ByteSize f)%nat
  end.

(** The three ways a connection answers the telemetry scan: it reports no
    write and is passed over; it reports the write it already has; it starts
    one. *)
Definition passed_over (c : ClientConnection) : bool :=
  m_connection_stopped c
  || (negb (m_has_pending_udp_write c)
      && (bool_decide (m_pending_dataframes c = []) || oversize_head c)).

Definition write_in_progress (c : ClientConnection) : bool :=
  negb (m_connection_stopped c) && m_has_pending_udp_write c.

Definition ready_to_write (c : ClientConnection) : bool :=
  negb (m_connection_stopped c) && negb (m_has_pending_udp_write c)
  && negb (bool_decide (m_pending_dataframes c = [])) && negb (oversize_head c).

(** A queued frame that no scan can start. *)
Definition stuck (c : ClientConnection) : Prop :=
  m_pending_dataframes c ≠ []
  ∧ (m_connection_stopped c = true ∨ oversize_head c = true).
End Readiness.

Definition is_tcp_accept (op : AsyncOp) : bool :=
  match op with TcpAccept _ => true | _ => false end.

(** The operations whose handler is a method of a connection. *)
Definition is_connection_op (op : AsyncOp) : bool :=
  match op with
  | TcpReadHeader _ | TcpReadBody _ _ | TcpWrite _ _ | UdpSendDataFrame _ _ _ => true
  | _ => false
  end.


(** The registry holds the connections [0 .. next_connection_id - 1], in
    this order, each under its own identifier. *)
Definition registry_ok (s : ServerNetworkManagerImpl) : Prop :=
  0 ≤ next_connection_id s
  ∧ (connections s).*1 = seqZ 0 (next_connection_id s)
  ∧ Forall (λ entry, m_connection_id entry.2 = entry.1) (connections s).

(** What is outstanding for the accept loop and the rendezvous, against the
    number of accepts started. *)
Definition coordinator_ok (s : ServerNetworkManagerImpl) : Prop :=
  (outstanding is_tcp_accept s ≤ 1)%nat
  ∧ (outstanding is_udp_receive s + outstanding is_connection_result s
     ≤ length (connections s))%nat.

(** A step that neither creates a connection nor touches the accept loop
    or the rendezvous: the identifiers stay, and what it hands to the
    [io_service] are operations of connections. *)
Definition quiet (s s' : ServerNetworkManagerImpl) : Prop :=
  next_connection_id s' = next_connection_id s
  ∧ (connections s').*1 = (connections s).*1
  ∧ (Forall (λ entry, m_connection_id entry.2 = entry.1) (connections s) →
     Forall (λ entry, m_connection_id entry.2 = entry.1) (connections s'))
  ∧ ∃ ops, io_service s' = io_service s ++ ops
           ∧ Forall (λ op, is_connection_op op = true) ops.

(** A method of a connection that keeps the identifier and starts only
    operations of the connection. *)
Definition tame (method : ResponseStore → ClientConnection
                          → ResponseStore * ClientConnection * list AsyncOp) : Prop :=
  ∀ store c,
    m_connection_id (method store c).1.2 = m_connection_id c
    ∧ Forall (λ op, is_connection_op op = true) (method store c).2.

Definition server_ok (s : ServerNetworkManagerImpl) : Prop :=
  registry_ok s ∧ coordinator_ok s.

(** [server_ok] with room for [a] more accepts and [r] more rendezvous
    operations. *)
Definition slack (a r : nat) (s : ServerNetworkManagerImpl) : Prop :=
  registry_ok s
  ∧ (outstanding is_tcp_accept s + a ≤ 1)%nat
  ∧ (outstanding is_udp_receive s + outstanding is_connection_result s + r
     ≤ length (connections s))%nat.

(** * Properties *)

(** ** The codec *)

Section CodecFacts.
Context `{W : Wire}.

Lemma pack_length (body : list byte) :
  length (pack body) = (HEADER_SIZE + length body)%nat.
Proof. unfold pack. rewrite length_app, encode_header_length. done. Qed.

Lemma pack_into_fits (body buffer : list byte) (size : nat) :
  (HEADER_SIZE + length body ≤ size)%nat →
  pack_into body buffer size
  = (true, pack body ++ drop (HEADER_SIZE + length body) buffer).
Proof.
  intros Hfit. unfold pack_into, pack.
  case_decide; [|lia]. by rewrite <- (assoc_L (++)).
Qed.

Lemma pack_into_too_large (body buffer : list byte) (size : nat) :
  (size < HEADER_SIZE + length body)%nat →
  pack_into body buffer size = (false, buffer).
Proof. intros Hbig. unfold pack_into. case_decide; [lia|done]. Qed.

Lemma pack_into_length (body buffer : list byte) (size : nat) :
  length buffer = size →
  length (pack_into body buffer size).2 = size.
Proof.
  intros Hlen. unfold pack_into. case_decide; simpl; [|done].
  rewrite !length_app, encode_header_length, length_drop. lia.
Qed.
End CodecFacts.

(** ** A single connection *)

Section ConnectionFacts.
Context `{W : Wire}.
Implicit Types (c : ClientConnection) (store : ResponseStore).

Lemma new_connection_well_sized (id : Z) : well_sized (new_connection id).
Proof. unfold well_sized. simpl. by rewrite length_replicate. Qed.

Lemma stop_stopped c : m_connection_stopped (stop c) = true.
Proof. by destruct c as [? [] ? ? ? ? ? ? ? ? ?]. Qed.

Lemma stop_flags c :
  m_has_pending_tcp_write (stop c) = false ∧ m_has_pending_udp_write (stop c) = false.
Proof. by destruct c as [? [] ? ? ? ? ? ? ? ? ?]. Qed.

Lemma stop_queues c :
  m_pending_responses (stop c) = m_pending_responses c
  ∧ m_pending_dataframes (stop c) = m_pending_dataframes c.
Proof. by destruct c as [? [] ? ? ? ? ? ? ? ? ?]. Qed.

Lemma start_tcp_write_stopped store c :
  m_connection_stopped c = true →
  start_tcp_write_queued_response store c = (false, c, []).
Proof. intros Hs. unfold start_tcp_write_queued_response. by rewrite Hs. Qed.

Lemma start_udp_write_stopped c :
  m_connection_stopped c = true →
  start_udp_write_queued_controller_data_frame c = (false, c, []).
Proof. intros Hs. unfold start_udp_write_queued_controller_data_frame. by rewrite Hs. Qed.

Lemma handle_write_response_complete_stopped ec store c :
  m_connection_stopped c = true →
  handle_write_response_complete ec store c = (c, []).
Proof. intros Hs. unfold handle_write_response_complete. by rewrite Hs. Qed.

Lemma handle_udp_write_complete_stopped ec c :
  m_connection_stopped c = true →
  handle_udp_write_controller_data_frame_complete ec c = c.
Proof.
  intros Hs. unfold handle_udp_write_controller_data_frame_complete. by rewrite Hs.
Qed.

Lemma start_udp_write_too_large c (f : ControllerDataFrame) rest :
  m_connection_stopped c = false →
  m_has_pending_udp_write c = false →
  m_pending_dataframes c = f :: rest →
  (dataframe_buffer_size < HEADER_SIZE + ByteSize f)%nat →
  start_udp_write_queued_controller_data_frame c = (false, c, []).
Proof.
  intros Hs Hp Hq Hbig. unfold start_udp_write_queued_controller_data_frame.
  rewrite Hs, Hp, Hq, pack_into_too_large by done. by destruct c.
Qed.

Lemma start_udp_write_fits c (f : ControllerDataFrame) rest :
  m_connection_stopped c = false →
  m_has_pending_udp_write c = false →
  m_pending_dataframes c = f :: rest →
  (HEADER_SIZE + ByteSize f ≤ dataframe_buffer_size)%nat →
  let buffer := pack (dataframe_bytes f)
                  ++ drop (HEADER_SIZE + ByteSize f) (m_dataframe_write_buffer c) in
  start_udp_write_queued_controller_data_frame c
  = (true,
     with_has_pending_udp_write true (with_dataframe_write_buffer buffer c),
     [UdpSendDataFrame (m_connection_id c) (take dataframe_buffer_size buffer)
        (m_udp_remote_endpoint c)]).
Proof.
  intros Hs Hp Hq Hfit. unfold start_udp_write_queued_controller_data_frame.
  rewrite Hs, Hp, Hq, pack_into_fits by done. done.
Qed.
End ConnectionFacts.

(** ** Oversize frames *)

Section Oversize.
Context `{W : Wire}.

(** C3, as the code behaves: when the frame at the head of the telemetry
    queue does not fit the transmit buffer, an attempt to start a write
    starts none and leaves the connection exactly as it was, the frame
    still at the head of the queue; so does every further attempt, and a
    frame queued behind it is never reached. *)
Theorem oversize_frame_stays_at_head (c : ClientConnection)
    (f : ControllerDataFrame) (rest : list ControllerDataFrame) (attempts : nat) :
  m_connection_stopped c = false →
  m_has_pending_udp_write c = false →
  m_pending_dataframes c = f :: rest →
  (dataframe_buffer_size < HEADER_SIZE + ByteSize f)%nat →
  start_udp_write_queued_controller_data_frame c = (false, c, [])
  ∧ Nat.iter attempts
      (λ c, (start_udp_write_queued_controller_data_frame c).1.2) c = c.
Proof.
  intros Hs Hp Hq Hbig.
  pose proof (start_udp_write_too_large c f rest Hs Hp Hq Hbig) as Hstart.
  split; [done|].
  induction attempts as [|n IH]; simpl; [done|]. by rewrite IH, Hstart.
Qed.
End Oversize.

Lemma oversize_frame_stays_at_head_witness :
  let c := add_controller_data_frame_to_write_queue small_frame
             (add_controller_data_frame_to_write_queue oversize_frame
                (new_connection (W := small_wire) 0)) in
  start_udp_write_queued_controller_data_frame c = (false, c, [])
  ∧ Nat.iter 5 (λ c, (start_udp_write_queued_controller_data_frame c).1.2) c = c.
Proof.
  intros c.
  apply (oversize_frame_stays_at_head (W := small_wire) c oversize_frame [small_frame] 5).
  - reflexivity.
  - reflexivity.
  - reflexivity.
  - vm_compute. lia.
Defined.

(** ** After [stop] *)

Section Stopped.
Context `{W : Wire}.
Variable store : ResponseStore.

Lemma add_tcp_response_fields response c :
  m_pending_responses (add_tcp_response_to_write_queue response c)
    = m_pending_responses c ++ [response]
  ∧ m_pending_dataframes (add_tcp_response_to_write_queue response c)
    = m_pending_dataframes c
  ∧ m_connection_stopped (add_tcp_response_to_write_queue response c)
    = m_connection_stopped c
  ∧ m_has_pending_tcp_write (add_tcp_response_to_write_queue response c)
    = m_has_pending_tcp_write c
  ∧ m_has_pending_udp_write (add_tcp_response_to_write_queue response c)
    = m_has_pending_udp_write c.
Proof. by destruct c. Qed.

Lemma add_controller_data_frame_fields data_frame c :
  m_pending_dataframes (add_controller_data_frame_to_write_queue data_frame c)
    = m_pending_dataframes c ++ [data_frame]
  ∧ m_pending_responses (add_controller_data_frame_to_write_queue data_frame c)
    = m_pending_responses c
  ∧ m_connection_stopped (add_controller_data_frame_to_write_queue data_frame c)
    = m_connection_stopped c
  ∧ m_has_pending_tcp_write (add_controller_data_frame_to_write_queue data_frame c)
    = m_has_pending_tcp_write c
  ∧ m_has_pending_udp_write (add_controller_data_frame_to_write_queue data_frame c)
    = m_has_pending_udp_write c.
Proof. by destruct c. Qed.

Lemma stopped_like_step t0 t added_r added_f ev :
  stopped_like t0 t added_r added_f →
  stopped_like t0 (queue_step store t ev)
    (added_r ++ responses_added [ev]) (added_f ++ dataframes_added [ev]).
Proof.
  intros (Hs & Ht & Hu & Hr & Hf & Hit & Hiu & Hst & Hsu). unfold stopped_like.
  destruct ev as [p|f| | |ec|ec|e|]; simpl; rewrite ?app_nil_r.
  - destruct (add_tcp_response_fields p (conn t)) as (-> & -> & -> & -> & ->).
    by rewrite Hr, <- (assoc_L (++)).
  - destruct (add_controller_data_frame_fields f (conn t)) as (-> & -> & -> & -> & ->).
    by rewrite Hf, <- (assoc_L (++)).
  - rewrite (start_tcp_write_stopped store _ Hs). simpl. by rewrite !app_nil_r.
  - rewrite (start_udp_write_stopped _ Hs). simpl. by rewrite !app_nil_r.
  - destruct (tcp_in_flight t) as [|data others] eqn:Hin; [by rewrite Hin|].
    rewrite (handle_write_response_complete_stopped ec store _ Hs). simpl in *.
    rewrite !app_nil_r. repeat split; try done; [lia|].
    destruct Hst as [n Hn]. exists (n + 1)%nat.
    by rewrite <- drop_drop, <- Hn.
  - destruct (udp_in_flight t) as [|data others] eqn:Hin; [by rewrite Hin|].
    rewrite (handle_udp_write_complete_stopped ec _ Hs). simpl in *.
    repeat split; try done; [lia|].
    destruct Hsu as [n Hn]. exists (n + 1)%nat.
    by rewrite <- drop_drop, <- Hn.
  - by destruct (conn t).
  - destruct (stop_queues (conn t)) as [-> ->].
    destruct (stop_flags (conn t)) as [-> ->]. by rewrite stop_stopped.
Qed.

Lemma stopped_guarded_operations_idle (c : ClientConnection) :
  m_connection_stopped c = true → guarded_operations_idle store c.
Proof.
  intros Hs. repeat split.
  - by apply start_tcp_write_stopped.
  - by apply start_udp_write_stopped.
  - intros ec. by apply handle_write_response_complete_stopped.
  - intros ec. by apply handle_udp_write_complete_stopped.
Qed.

Lemma stop_stopped_like (t : Traced) :
  stopped_like t (queue_step store t q_stop) [] [].
Proof.
  unfold stopped_like. simpl.
  destruct (stop_queues (conn t)) as [-> ->].
  destruct (stop_flags (conn t)) as [-> ->].
  rewrite stop_stopped, !app_nil_r.
  repeat split; try done; by exists 0%nat.
Qed.

Lemma stopped_like_run events t0 t added_r added_f :
  stopped_like t0 t added_r added_f →
  stopped_like t0 (queue_run store events t)
    (added_r ++ responses_added events) (added_f ++ dataframes_added events).
Proof.
  revert t added_r added_f.
  induction events as [|ev events IH]; intros t added_r added_f Hinv.
  - simpl. by rewrite !app_nil_r.
  - simpl. apply (stopped_like_step _ _ _ _ ev), IH in Hinv.
    rewrite <- !(assoc_L (++)) in Hinv.
    unfold responses_added, dataframes_added in *. simpl in *.
    by destruct ev.
Qed.

(** C4, amended: once [stop] has been called on a connection, then
    whatever queue and write operations follow, in any number and order
    ([start] not being called again), the connection stays stopped with both
    in-flight flags clear.  Attempts to start a write and write-completion
    callbacks are no-ops: each returns the connection as it is and hands no
    operation to the transport, so the writes in flight are writes that were
    in flight at [stop].  The two enqueue operations are not guarded and
    still append their item, so each queue is what it was at [stop] followed
    by the items enqueued since. *)
Theorem stopped_connection_only_enqueues (t : Traced) (events : list QueueEvent) :
  let t' := queue_run store (q_stop :: events) t in
  m_connection_stopped (conn t') = true
  ∧ m_has_pending_tcp_write (conn t') = false
  ∧ m_has_pending_udp_write (conn t') = false
  ∧ m_pending_responses (conn t') = m_pending_responses (conn t) ++ responses_added events
  ∧ m_pending_dataframes (conn t')
    = m_pending_dataframes (conn t) ++ dataframes_added events
  ∧ (length (tcp_in_flight t') ≤ length (tcp_in_flight t))%nat
  ∧ (length (udp_in_flight t') ≤ length (udp_in_flight t))%nat
  ∧ (∃ n, tcp_in_flight t' = drop n (tcp_in_flight t))
  ∧ (∃ n, udp_in_flight t' = drop n (udp_in_flight t))
  ∧ start_tcp_write_queued_response store (conn t') = (false, conn t', [])
  ∧ start_udp_write_queued_controller_data_frame (conn t') = (false, conn t', [])
  ∧ (∀ ec, handle_write_response_complete ec store (conn t') = (conn t', []))
  ∧ (∀ ec, handle_udp_write_controller_data_frame_complete ec (conn t') = conn t').
Proof.
  intros t'. subst t'. simpl.
  pose proof (stopped_like_run events _ _ _ _ (stop_stopped_like t)) as Hinv.
  destruct Hinv as (Hs & Ht & Hu & Hr & Hf & Hit & Hiu & Hst & Hsu).
  destruct (stopped_guarded_operations_idle _ Hs) as (? & ? & ? & ?).
  repeat split; done.
Qed.
End Stopped.

(** C4 as stated fails: enqueueing a response on a stopped connection
    changes its response queue. *)
Lemma enqueue_after_stop_changes_queue :
  let c := stop (new_connection (W := small_wire) 0) in
  m_connection_stopped c = true
  ∧ m_pending_responses c = []
  ∧ m_pending_responses (add_tcp_response_to_write_queue 1%positive c) = [1%positive]
  ∧ m_pending_dataframes (add_controller_data_frame_to_write_queue small_frame c)
    = [small_frame].
Proof. by vm_compute. Qed.

(** ** The datagram of a telemetry frame *)

Section Datagram.
Context `{W : Wire}.

(** C9, amended: the datagram handed to the transport for a telemetry
    frame is always the whole transmit buffer, [HEADER_SIZE +
    MAX_DATA_FRAME_MESSAGE_SIZE] bytes.  It starts with the envelope, the
    header followed by the body of the declared length. *)
Theorem dataframe_datagram_is_whole_buffer (c c' : ClientConnection) (b : bool)
    (id : Z) (data : list byte) (dest : udp_endpoint) :
  well_sized c →
  start_udp_write_queued_controller_data_frame c
    = (b, c', [UdpSendDataFrame id data dest]) →
  ∃ f rest,
    m_pending_dataframes c = f :: rest
    ∧ length data = dataframe_buffer_size
    ∧ take (HEADER_SIZE + ByteSize f) data = pack (dataframe_bytes f).
Proof.
  unfold well_sized, start_udp_write_queued_controller_data_frame. intros Hsize.
  destruct (m_connection_stopped c); [done|].
  destruct (m_has_pending_udp_write c); [done|].
  destruct (m_pending_dataframes c) as [|f rest]; [done|].
  destruct (pack_into _ _ _) as [[] buffer] eqn:Hpack; [|done].
  intros [= _ _ _ <- _]. exists f, rest. split; [done|].
  pose proof (pack_into_length (dataframe_bytes f) _ _ Hsize) as Hlen.
  rewrite Hpack in Hlen. simpl in Hlen.
  split; [by rewrite length_take, Hlen, Nat.min_id|].
  unfold pack_into in Hpack. case_decide as Hfit; [|done].
  injection Hpack as <-. unfold ByteSize in *.
  rewrite take_take, Nat.min_l by done.
  rewrite (assoc_L (++)). fold (pack (dataframe_bytes f)).
  by rewrite <- (pack_length (dataframe_bytes f)), take_app_length.
Qed.

(** Every queue and write operation keeps the buffer at its declared
    size, so the premise above holds of a connection throughout. *)
Lemma queue_step_well_sized (store : ResponseStore) (t : Traced) (ev : QueueEvent) :
  well_sized (conn t) → well_sized (conn (queue_step store t ev)).
Proof.
  unfold well_sized. destruct t as [c ti ui tw uw re fe].
  destruct c as [id o e rb wb db pr pd st ptw puw]. simpl. intros Hsize.
  destruct ev as [p|f| | |ec|ec|ep|]; simpl; try done.
  - unfold start_tcp_write_queued_response. simpl.
    destruct st, ptw, pr; done.
  - unfold start_udp_write_queued_controller_data_frame. simpl.
    destruct st, puw, pd as [|f rest]; try done.
    pose proof (pack_into_length (dataframe_bytes f) db _ Hsize) as Hlen.
    destruct (pack_into _ _ _) as [[] buffer]; done.
  - destruct ti; [done|].
    unfold handle_write_response_complete, start_tcp_write_queued_response, stop. simpl.
    destruct st, ec, o, pr as [|? [|? ?]]; done.
  - destruct ui; [done|].
    unfold handle_udp_write_controller_data_frame_complete, stop. simpl.
    destruct st, ec, o; done.
  - unfold stop. simpl. by destruct o.
Qed.

Lemma queue_run_well_sized (store : ResponseStore) (id : Z) (events : list QueueEvent) :
  well_sized (conn (queue_run store events (traced_new id))).
Proof.
  assert (∀ t, well_sized (conn t) → well_sized (conn (queue_run store events t))) as H.
  { induction events as [|ev events IH]; intros t Ht; [done|].
    simpl. by apply IH, queue_step_well_sized. }
  apply H, new_connection_well_sized.
Qed.
End Datagram.

Lemma dataframe_datagram_is_whole_buffer_witness :
  ∃ f rest,
    m_pending_dataframes
      (add_controller_data_frame_to_write_queue small_frame
         (new_connection (W := small_wire) 0)) = f :: rest
    ∧ length [x00; x00; x00; x03; x01; x02; x03; x00; x00; x00; x00; x00]
      = dataframe_buffer_size (W := small_wire)
    ∧ take (HEADER_SIZE + ByteSize f)
        [x00; x00; x00; x03; x01; x02; x03; x00; x00; x00; x00; x00]
      = pack (W := small_wire) (dataframe_bytes f).
Proof.
  eapply (dataframe_datagram_is_whole_buffer (W := small_wire)
            (add_controller_data_frame_to_write_queue small_frame (new_connection 0))).
  - reflexivity.
  - reflexivity.
Defined.

(** C9 as stated fails: for a three-byte frame the datagram handed to the
    transport has twelve bytes, the size of the buffer, while the envelope
    has seven. *)
Lemma dataframe_datagram_longer_than_envelope :
  ∃ c' data,
    start_udp_write_queued_controller_data_frame
      (add_controller_data_frame_to_write_queue small_frame
         (new_connection (W := small_wire) 0))
    = (true, c', [UdpSendDataFrame 0 data default_endpoint])
    ∧ length data = 12%nat
    ∧ length (pack (W := small_wire) (dataframe_bytes small_frame)) = 7%nat
    ∧ data ≠ pack (W := small_wire) (dataframe_bytes small_frame).
Proof. eexists _, _. split; [reflexivity|]. by vm_compute. Qed.

(** ** Telemetry before the rendezvous *)

Section Unbound.
Context `{W : Wire}.
Variable store : ResponseStore.



End Unbound.


(** ** FIFO order and single write in flight *)

Section Fifo.
Context `{W : Wire}.
Variable store : ResponseStore.

Lemma traced_new_tcp_inv id : tcp_channel_inv store (traced_new id).
Proof. exists []. split; [done|]. by left. Qed.

Lemma traced_new_udp_inv id : udp_channel_inv (traced_new id).
Proof. exists []. split; [done|]. left. by repeat split. Qed.

Local Ltac close_mode :=
  repeat (split; [reflexivity|]); rewrite ?fmap_app, ?app_nil_r; reflexivity.

Local Ltac tcp_mode sent' :=
  exists sent'; simpl; split;
  [ by rewrite <- ?(assoc_L (++)), ?app_nil_r
  | first [ left; close_mode
          | right; left; eexists _, _; close_mode
          | right; right; eexists _, _; close_mode ] ].

Lemma tcp_channel_inv_step t ev :
  tcp_channel_inv store t → tcp_channel_inv store (queue_step store t ev).
Proof.
  intros (sent & Henq & Hmode). unfold tcp_channel_inv.
  destruct t as [c ti ui tw uw re fe].
  destruct c as [id o e rb wb db pr pd st ptw puw]. simpl in *. subst re.
  destruct Hmode as [(-> & -> & ->)|[(head & rest & -> & -> & -> & ->)
                                    |(head & rest & -> & -> & -> & -> & ->)]];
    destruct ev as [p|f| | |ec|ec|ep|]; simpl.
  all: try (tcp_mode sent).
  all: repeat first
         [ progress unfold start_tcp_write_queued_response,
             start_udp_write_queued_controller_data_frame,
             handle_write_response_complete,
             handle_udp_write_controller_data_frame_complete, stop, pack_into,
             completed
         | progress simpl
         | match goal with
           | |- context [if ?b then _ else _] => destruct b
           | |- context [match ?l with [] => _ | _ :: _ => _ end] => destruct l
           | |- context [match ?ec with ec_ok => _ | ec_failed => _ end] =>
               destruct ec
           end ].
  all: try (tcp_mode sent).
  all: try (tcp_mode (sent ++ [head])).
Qed.

Lemma carries_transmit_buffer (f : ControllerDataFrame) (old : list byte) :
  (HEADER_SIZE + length (dataframe_bytes f) ≤ dataframe_buffer_size)%nat →
  carries
    (take dataframe_buffer_size
       (encode_header (length (dataframe_bytes f)) ++ dataframe_bytes f
          ++ drop (HEADER_SIZE + length (dataframe_bytes f)) old)) f.
Proof.
  intros Hfit. unfold carries, ByteSize.
  rewrite take_take, Nat.min_l by done.
  rewrite (assoc_L (++)). fold (pack (dataframe_bytes f)).
  by rewrite <- (pack_length (dataframe_bytes f)), take_app_length.
Qed.

Local Ltac close_udp_mode :=
  repeat (split; [first [reflexivity | assumption
                        | by apply carries_transmit_buffer]|]);
  rewrite ?app_nil_r;
  first [ assumption | apply Forall2_app; [assumption|by constructor] ].

Local Ltac udp_mode sent' :=
  exists sent'; simpl; split;
  [ by rewrite <- ?(assoc_L (++)), ?app_nil_r
  | first [ left; close_udp_mode
          | right; left; eexists _, _, _; close_udp_mode
          | right; right; eexists _, _; close_udp_mode ] ].

Lemma udp_channel_inv_step t ev :
  udp_channel_inv t → udp_channel_inv (queue_step store t ev).
Proof.
  intros (sent & Henq & Hmode). unfold udp_channel_inv.
  destruct t as [c ti ui tw uw re fe].
  destruct c as [id o e rb wb db pr pd st ptw puw]. simpl in *. subst fe.
  destruct Hmode as [(-> & -> & Hw)|[(head & rest & datagram & -> & -> & Hc & -> & Hw)
                                    |(head & rest & -> & -> & -> & -> & Hw)]];
    destruct ev as [p|f| | |ec|ec|ep|]; simpl.
  all: try (udp_mode sent).
  all: repeat first
         [ progress unfold start_tcp_write_queued_response,
             start_udp_write_queued_controller_data_frame,
             handle_write_response_complete,
             handle_udp_write_controller_data_frame_complete, stop, pack_into,
             completed
         | progress simpl
         | case_decide
         | match goal with
           | |- context [if ?b then _ else _] => destruct b
           | |- context [match ?l with [] => _ | _ :: _ => _ end] => destruct l
           | |- context [match ?ec with ec_ok => _ | ec_failed => _ end] =>
               destruct ec
           end ].
  all: try (udp_mode sent).
  all: try (udp_mode (sent ++ [head])).
Qed.

Lemma queue_run_inv events t :
  tcp_channel_inv store t → udp_channel_inv t →
  tcp_channel_inv store (queue_run store events t)
  ∧ udp_channel_inv (queue_run store events t).
Proof.
  revert t. induction events as [|ev events IH]; intros t Ht Hu; [done|].
  simpl. apply IH; [by apply tcp_channel_inv_step|by apply udp_channel_inv_step].
Qed.

Lemma tcp_channel_inv_fifo t :
  tcp_channel_inv store t →
  (length (tcp_in_flight t) ≤ 1)%nat
  ∧ tcp_written t
    = response_envelope store <$> take (length (tcp_written t)) (responses_enqueued t).
Proof.
  intros (sent & -> & [(-> & _ & ->)|[(head & rest & -> & -> & _ & ->)
                                     |(head & rest & -> & -> & _ & _ & ->)]]).
  - split; [simpl; lia|]. by rewrite length_fmap, take_app_length.
  - split; [simpl; lia|]. by rewrite length_fmap, take_app_length.
  - split; [simpl; lia|].
    replace (sent ++ head :: rest) with ((sent ++ [head]) ++ rest)
      by (by rewrite <- (assoc_L (++))).
    by rewrite length_fmap, take_app_length.
Qed.

Lemma udp_channel_inv_fifo t :
  udp_channel_inv t →
  (length (udp_in_flight t) ≤ 1)%nat
  ∧ Forall2 carries (udp_written t)
      (take (length (udp_written t)) (dataframes_enqueued t)).
Proof.
  intros (sent & -> & [(-> & _ & Hw)|[(head & rest & datagram & -> & -> & _ & _ & Hw)
                                     |(head & rest & -> & -> & _ & _ & Hw)]]).
  - split; [simpl; lia|]. by rewrite (Forall2_length _ _ _ Hw), take_app_length.
  - split; [simpl; lia|]. by rewrite (Forall2_length _ _ _ Hw), take_app_length.
  - split; [simpl; lia|].
    replace (sent ++ head :: rest) with ((sent ++ [head]) ++ rest)
      by (by rewrite <- (assoc_L (++))).
    by rewrite (Forall2_length _ _ _ Hw), take_app_length.
Qed.

(** On a connection from its construction, for as long as [start] is not
    called on it: whatever enqueue, start-write, write-completion, bind and
    stop events occur and in whatever order, each of the two queues has at
    most one write in flight;
    the writes the transport has completed are, in order, the envelopes of
    the first items that were enqueued (for telemetry: datagrams that start
    with those envelopes); and an enqueue hands nothing to the transport. *)
Theorem outbound_queue_fifo_single_write (id : Z) (events : list QueueEvent) :
  let t := queue_run store events (traced_new id) in
  (length (tcp_in_flight t) ≤ 1)%nat
  ∧ (length (udp_in_flight t) ≤ 1)%nat
  ∧ tcp_written t
    = response_envelope store <$> take (length (tcp_written t)) (responses_enqueued t)
  ∧ Forall2 carries (udp_written t)
      (take (length (udp_written t)) (dataframes_enqueued t))
  ∧ (∀ response,
       tcp_in_flight (queue_step store t (q_add_tcp_response response))
         = tcp_in_flight t
       ∧ udp_in_flight (queue_step store t (q_add_tcp_response response))
         = udp_in_flight t)
  ∧ (∀ data_frame,
       tcp_in_flight (queue_step store t (q_add_controller_data_frame data_frame))
         = tcp_in_flight t
       ∧ udp_in_flight (queue_step store t (q_add_controller_data_frame data_frame))
         = udp_in_flight t).
Proof.
  intros t.
  destruct (queue_run_inv events (traced_new id)
              (traced_new_tcp_inv id) (traced_new_udp_inv id)) as [Ht Hu].
  fold t in Ht, Hu.
  destruct (tcp_channel_inv_fifo t Ht) as [? ?].
  destruct (udp_channel_inv_fifo t Hu) as [? ?].
  repeat split; done.
Qed.
End Fifo.

(** A run of the response queue: two responses are enqueued, the writes are
    started and complete; the completed writes are the two envelopes in the
    order of the enqueues. *)
Example fifo_run :
  let store : ResponseStore :=
    {[ 1%positive := echo 7 [x0a]; 2%positive := echo 8 [x0b; x0c] ]} in
  let t := queue_run (W := small_wire) store
             [q_add_tcp_response 1%positive; q_start_tcp_write;
              q_add_tcp_response 2%positive; q_start_tcp_write;
              q_tcp_write_complete ec_ok; q_tcp_write_complete ec_ok]
             (traced_new 0) in
  tcp_written t = [[x00; x00; x00; x01; x0a]; [x00; x00; x00; x02; x0b; x0c]]
  ∧ tcp_in_flight t = []
  ∧ m_pending_responses (conn t) = [].
Proof. by vm_compute. Qed.

(** ** The bounded tick *)

Section PollBound.
Context `{W : Wire} {E : Type}.
Variable io_service_poll : E → ServerNetworkManagerImpl → E * ServerNetworkManagerImpl.

Lemma poll_body_counts (f : PollFrame) :
  iteration_count (poll_body io_service_poll f) = iteration_count f + 1
  ∧ polled (poll_body io_service_poll f) = S (polled f).
Proof. unfold poll_body. by destruct (io_service_poll _ _). Qed.

Lemma poll_loop_terminates (fuel : nat) (f : PollFrame) :
  0 ≤ iteration_count f ≤ k_max_iteration_count →
  iteration_count f = Z.of_nat (polled f) →
  (Z.to_nat (k_max_iteration_count - iteration_count f) < fuel)%nat →
  ∃ f', while fuel poll_cond (poll_body io_service_poll) f = Some f'
        ∧ 0 ≤ iteration_count f' ≤ k_max_iteration_count
        ∧ iteration_count f' = Z.of_nat (polled f')
        ∧ (keep_polling f' = false ∨ iteration_count f' = k_max_iteration_count).
Proof.
  revert f. induction fuel as [|fuel IH]; intros f Hrange Hpolled Hfuel; [lia|].
  simpl. destruct (poll_cond f) eqn:Hcond.
  - apply andb_true_iff in Hcond as [_ Hlt]. apply bool_decide_eq_true in Hlt.
    destruct (poll_body_counts f) as [Hcount Hp].
    apply IH; rewrite ?Hcount, ?Hp; lia.
  - exists f. repeat split; try done; try lia.
    apply andb_false_iff in Hcond as [Hk|Hlt]; [by left|right].
    apply bool_decide_eq_false in Hlt. lia.
Qed.

(** C7: whatever the completion dispatcher does, and whatever the
    registry holds, [poll] returns, given fuel for its 33 evaluations of
    the loop condition, after at most 32 iterations, each of which called
    the dispatcher once; it stops before the cap only when no telemetry is
    ready to start. *)
Theorem poll_returns_within_cap (extra : nat) (env : E) (s : ServerNetworkManagerImpl) :
  ∃ f, poll io_service_poll (33 + extra) env s = Some f
       ∧ 0 ≤ iteration_count f ≤ 32
       ∧ (polled f ≤ 32)%nat
       ∧ iteration_count f = Z.of_nat (polled f)
       ∧ (keep_polling f = false ∨ iteration_count f = 32).
Proof.
  unfold poll.
  destruct (poll_loop_terminates (33 + extra)
              {| poll_server := s; poll_env := env; keep_polling := true;
                 iteration_count := 0; polled := 0 |})
    as (f & Hf & Hrange & Hp & Hstop).
- simpl. unfold k_max_iteration_count. lia.
- done.
- simpl. unfold k_max_iteration_count. lia.
- exists f. split; [exact Hf|]. unfold k_max_iteration_count in Hrange, Hstop.
  split; [exact Hrange|]. split; [lia|]. split; [exact Hp|exact Hstop].
Qed.
End PollBound.

(** With telemetry perpetually ready, a frame being enqueued on every
    completion, it is the cap that ends the loop: the dispatcher has been
    called 32 times and more telemetry is still ready. *)
Example poll_busy :
  ∃ f, poll (W := small_wire) busy_poll 33 () busy_server = Some f
       ∧ iteration_count f = 32
       ∧ polled f = 32%nat
       ∧ keep_polling f = true.
Proof. eexists. split; [by vm_compute|]. by vm_compute. Qed.

(** ** The registry *)

Section RegistryFacts.
Context {V : Type}.
Implicit Types (m : list (Z * V)).

Lemma map_find_set_eq k v m :
  map_find k (map_set k v m) = (λ _, v) <$> map_find k m.
Proof.
  induction m as [|[k' v'] m IH]; simpl; [done|].
  repeat (case_decide; simpl; try done).
Qed.

Lemma map_find_set_ne k k' v m :
  k ≠ k' → map_find k' (map_set k v m) = map_find k' m.
Proof.
  intros Hne. induction m as [|[k'' v''] m IH]; simpl; [done|].
  repeat (case_decide; simpl; try done); congruence.
Qed.

Lemma map_set_length k v m : length (map_set k v m) = length m.
Proof.
  induction m as [|[k' v'] m IH]; simpl; [done|].
  case_decide; simpl; by rewrite ?IH.
Qed.
End RegistryFacts.

(** ** The rendezvous *)

Section Rendezvous.
Context `{W : Wire}.
Implicit Types (s : ServerNetworkManagerImpl).

Lemma remove_receives_first (front back : list AsyncOp) :
  Forall (λ op, is_udp_receive op = false) front →
  remove_receives 1 (front ++ UdpReceiveConnectionId :: back) = front ++ back.
Proof.
  induction 1 as [|op front Hop _ IH]; simpl; [by destruct back|].
  by rewrite Hop, IH.
Qed.

(** A single datagram, taken by the oldest outstanding receive, is the
    completion of that receive with the datagram as its result. *)
Lemma receive_datagrams_one s (front back : list AsyncOp) (id : Z) (sender : udp_endpoint) :
  io_service s = front ++ UdpReceiveConnectionId :: back →
  Forall (λ op, is_udp_receive op = false) front →
  receive_datagrams [(id, sender)] s = complete s (length front, io_received id sender).
Proof.
  intros Hio Hfront.
  destruct s as [conns next ep idb rb store io]. simpl in Hio. subst io.
  unfold receive_datagrams, complete, outstanding. cbn [io_service].
  rewrite filter_app, filter_cons_True, length_app by done.
  rewrite list_lookup_middle by done. rewrite delete_middle.
  cbn [length]. rewrite Nat.add_succ_r. cbn [take]. rewrite take_nil.
  cbn [foldl length Nat.iter nat_rect]. unfold store_datagram. cbn.
  by rewrite remove_receives_first.
Qed.

End Rendezvous.

(** The two branches of the rendezvous on a server with one registered
    connection. *)
Example rendezvous_run :
  let s := startup (W := small_wire) (new_server 0 false) in
  let sender := {| ip_address := 7; ip_port := 9 |} in
  io_service (complete s (1%nat, io_received 0 sender))
    = [TcpAccept 0; UdpSendConnectionResult true sender]
  ∧ (m_udp_remote_endpoint <$> map_find 0 (connections (complete s (1%nat, io_received 0 sender))))
    = Some sender
  ∧ io_service (complete s (1%nat, io_received 5 sender))
    = [TcpAccept 0; UdpSendConnectionResult false sender]
  ∧ connections (complete s (1%nat, io_received 5 sender)) = connections s.
Proof. by vm_compute. Qed.


(** ** Notifications *)

Section Notification.
Context `{W : Wire}.
Implicit Types (s : ServerNetworkManagerImpl).

(** C10: for an identifier that is not in the registry,
    [send_notification] leaves every connection and the outstanding
    operations as they were, and returns normally; the response object it
    was given nevertheless has its request identifier set to [-1], for
    everyone who holds a pointer to it. *)
Theorem send_notification_unknown_id s (connection_id : Z) (response : ResponsePtr)
    (r : Response) :
  map_find connection_id (connections s) = None →
  responses s !! response = Some r →
  let s' := send_notification connection_id response s in
  connections s' = connections s
  ∧ io_service s' = io_service s
  ∧ responses s' !! response = Some (set_request_id (-1) r)
  ∧ request_id (set_request_id (-1) r) = -1
  ∧ (∀ other, other ≠ response → responses s' !! other = responses s !! other)
  ∧ s' = with_responses (alter (set_request_id (-1)) response (responses s)) s.
Proof.
  intros Hfind Hr. unfold send_notification. rewrite Hfind.
  destruct s as [conns next ep idb rb store io]. simpl in *.
  repeat split; try done.
  - by rewrite lookup_alter_eq, Hr.
  - intros other Hne. by rewrite lookup_alter_ne.
Qed.
End Notification.

Lemma send_notification_unknown_id_witness :
  let s := step (W := small_wire) (startup (new_server 0 false))
             (ev_new_response (echo 41 [x0a])) in
  let s' := send_notification 5 1%positive s in
  connections s' = connections s
  ∧ io_service s' = io_service s
  ∧ responses s' !! 1%positive = Some (set_request_id (-1) (echo 41 [x0a]))
  ∧ request_id (set_request_id (-1) (echo 41 [x0a])) = -1
  ∧ (∀ other, other ≠ 1%positive → responses s' !! other = responses s !! other)
  ∧ s' = with_responses (alter (set_request_id (-1)) 1%positive (responses s)) s.
Proof.
  apply (send_notification_unknown_id (W := small_wire)
           (step (startup (new_server 0 false)) (ev_new_response (echo 41 [x0a])))
           5 1%positive (echo 41 [x0a])).
  - reflexivity.
  - reflexivity.
Defined.

(** ** Writes on the shared datagram socket *)

Section SharedSocket.
Context `{W : Wire}.
Implicit Types (s : ServerNetworkManagerImpl) (c : ClientConnection).

Lemma start_udp_write_cases c :
  (∃ b c', start_udp_write_queued_controller_data_frame c = (b, c', []))
  ∨ (∃ c' data dest,
       start_udp_write_queued_controller_data_frame c
       = (true, c', [UdpSendDataFrame (m_connection_id c) data dest])).
Proof.
  unfold start_udp_write_queued_controller_data_frame.
  destruct (m_connection_stopped c); [by left; eexists _, _|].
  destruct (m_has_pending_udp_write c); [by left; eexists _, _|].
  destruct (m_pending_dataframes c) as [|f rest]; [by left; eexists _, _|].
  destruct (pack_into _ _ _) as [[] buffer].
  - right. by eexists _, _, _.
  - left. by eexists _, _.
Qed.

Lemma start_udp_write_in_progress c :
  m_connection_stopped c = false →
  m_has_pending_udp_write c = true →
  start_udp_write_queued_controller_data_frame c = (true, c, []).
Proof.
  intros Hs Hp. unfold start_udp_write_queued_controller_data_frame. by rewrite Hs, Hp.
Qed.

Lemma scan_loop_ops (conns : list (Z * ClientConnection)) :
  (length (start_udp_queued_data_frame_write_loop conns).2 ≤ 1)%nat
  ∧ Forall (λ op, is_udp_write op = true ∧ is_connection_result op = false)
      (start_udp_queued_data_frame_write_loop conns).2.
Proof.
  induction conns as [|[id c] conns IH]; simpl; [by split; [lia|constructor]|].
  destruct (start_udp_write_cases c) as [(b & c' & ->)|(c' & data & dest & ->)].
  - destruct b; simpl; [by split; [lia|constructor]|].
    by destruct (start_udp_queued_data_frame_write_loop conns) as [rest ops].
  - simpl. split; [lia|]. by repeat constructor.
Qed.

Lemma scan_loop_behind (front back : list (Z * ClientConnection)) (id : Z) c :
  m_connection_stopped c = false →
  m_has_pending_udp_write c = true →
  ∃ front',
    length front' = length front
    ∧ (start_udp_queued_data_frame_write_loop (front ++ (id, c) :: back)).1
      = front' ++ (id, c) :: back.
Proof.
  intros Hs Hp. induction front as [|[id' c'] front (front' & Hlen & IH)]; simpl.
  - exists []. by rewrite (start_udp_write_in_progress c Hs Hp).
  - destruct (start_udp_write_queued_controller_data_frame c') as [[[] c''] ops]; simpl.
    + by exists ((id', c'') :: front).
    + destruct (start_udp_queued_data_frame_write_loop _) as [rest ops'].
      simpl in *. subst rest. exists ((id', c'') :: front'). simpl. by rewrite Hlen.
Qed.

(** C2, amended: one pass of the telemetry scan hands at most one write to
    the shared datagram socket, a data-frame write, and leaves alone every
    connection behind one that has a write in progress.  The coordinator
    sends a rendezvous reply whenever asked, whatever is outstanding on the
    socket, so a reply write and a telemetry write can be outstanding
    together. *)
Theorem telemetry_scan_starts_at_most_one_write s :
  (∃ ops,
     io_service (start_udp_queued_data_frame_write s) = io_service s ++ ops
     ∧ (length ops ≤ 1)%nat
     ∧ Forall (λ op, is_udp_write op = true ∧ is_connection_result op = false) ops)
  ∧ (∀ front id c back,
       connections s = front ++ (id, c) :: back →
       m_connection_stopped c = false →
       m_has_pending_udp_write c = true →
       ∃ front',
         length front' = length front
         ∧ connections (start_udp_queued_data_frame_write s) = front' ++ (id, c) :: back)
  ∧ (∀ success,
       io_service (start_udp_send_connection_result success s)
       = io_service s ++ [UdpSendConnectionResult success (udp_connecting_remote_endpoint s)]).
Proof.
  split; [|split].
  - unfold start_udp_queued_data_frame_write.
    destruct (scan_loop_ops (connections s)) as [Hlen Hall].
    destruct (start_udp_queued_data_frame_write_loop (connections s)) as [conns ops].
    exists ops. by destruct s.
  - intros front id c back Hconns Hs Hp.
    destruct (scan_loop_behind front back id c Hs Hp) as (front' & Hlen & Hloop).
    exists front'. split; [done|].
    unfold start_udp_queued_data_frame_write. rewrite Hconns.
    destruct (start_udp_queued_data_frame_write_loop _) as [conns ops].
    simpl in Hloop. subst conns. by destruct s.
  - intros success. by destruct s.
Qed.
End SharedSocket.

Lemma telemetry_scan_starts_at_most_one_write_witness :
  let s := run (W := small_wire)
             [ev_update [[(0%nat, io_done)]]; ev_update [[(3%nat, io_done)]];
              ev_send_controller_data_frame 1 small_frame;
              ev_send_controller_data_frame 2 small_frame]
             (startup (new_server 0 false)) in
  ∃ c0 c1 c2,
    connections s = [(0, c0)] ++ (1, c1) :: [(2, c2)]
    ∧ m_has_pending_udp_write c1 = true
    ∧ m_pending_dataframes c2 = [small_frame]
    ∧ m_connection_stopped c2 = false
    ∧ m_has_pending_udp_write c2 = false
    ∧ ∃ front',
        length front' = length [(0, c0)]
        ∧ connections (start_udp_queued_data_frame_write s)
          = front' ++ (1, c1) :: [(2, c2)].
Proof.
  intros s. eexists _, _, _.
  split; [vm_compute; reflexivity|].
  split; [reflexivity|]. split; [reflexivity|].
  split; [reflexivity|]. split; [reflexivity|].
  apply (proj1 (proj2 (telemetry_scan_starts_at_most_one_write (W := small_wire) s))).
  - vm_compute. reflexivity.
  - reflexivity.
  - reflexivity.
Defined.

(** C2 as stated fails: a telemetry write is outstanding on the shared
    socket when an identifier datagram arrives, and the reply is sent at
    once; two writes are then outstanding on the socket. *)
Lemma two_writes_on_shared_socket :
  let s := run (W := small_wire)
             [ev_update [[(0%nat, io_done)]];
              ev_send_controller_data_frame 0 small_frame;
              ev_update [[(0%nat, io_received 0 {| ip_address := 7; ip_port := 9 |})]]]
             (startup (new_server 0 false)) in
  reachable (W := small_wire) s
  ∧ filter (λ op, is_udp_write op = true) (io_service s)
    = [UdpSendDataFrame 0 [x00; x00; x00; x03; x01; x02; x03; x00; x00; x00; x00; x00]
         default_endpoint;
       UdpSendConnectionResult true {| ip_address := 7; ip_port := 9 |}]
  ∧ outstanding is_udp_write s = 2%nat
  ∧ ¬ (outstanding is_udp_write s ≤ 1)%nat.
Proof.
  split; [by eexists 0, false, _|].
  split; [by vm_compute|]. split; [by vm_compute|]. vm_compute. lia.
Qed.

(** The scan does not serialize telemetry among connections either: with a
    write in progress on connection 1, a frame for connection 0, which the
    scan meets first, is started as well. *)
Example two_telemetry_writes :
  let s := run (W := small_wire)
             [ev_update [[(0%nat, io_done)]];
              ev_send_controller_data_frame 1 small_frame;
              ev_send_controller_data_frame 0 small_frame]
             (startup (new_server 0 false)) in
  filter (λ op, is_udp_write op = true) (io_service s)
  = [UdpSendDataFrame 1 [x00; x00; x00; x03; x01; x02; x03; x00; x00; x00; x00; x00]
       default_endpoint;
     UdpSendDataFrame 0 [x00; x00; x00; x03; x01; x02; x03; x00; x00; x00; x00; x00]
       default_endpoint].
Proof. by vm_compute. Qed.


(** ** Re-arming the rendezvous receive *)

Section Receive.
Context `{W : Wire}.
Implicit Types (s : ServerNetworkManagerImpl) (c : ClientConnection).

Lemma outstanding_async kind ops s :
  outstanding kind (async ops s)
  = (outstanding kind s + length (filter (λ op, kind op = true) ops))%nat.
Proof. unfold outstanding. destruct s. simpl. by rewrite filter_app, length_app. Qed.

Lemma start_ops_no_receive store c :
  filter (λ op, is_udp_receive op = true) (start store c).2 = [].
Proof.
  unfold start, send_connection_info, start_tcp_read_request_header,
    start_tcp_write_queued_response.
  destruct c as [id o e rb wb db pr pd st ptw puw]. simpl.
  destruct ptw; simpl; [done|]. by destruct pr.
Qed.

Lemma outstanding_call_start id s :
  outstanding is_udp_receive (call id start s) = outstanding is_udp_receive s.
Proof.
  unfold call. destruct (map_find id (connections s)) as [c|]; [|done].
  pose proof (start_ops_no_receive (responses s) c) as Hops.
  destruct (start (responses s) c) as [[store c'] ops]. simpl in Hops.
  rewrite outstanding_async, Hops. simpl. destruct s. unfold outstanding. simpl. lia.
Qed.

Lemma outstanding_start_tcp_accept s :
  outstanding is_udp_receive (start_tcp_accept s) = S (outstanding is_udp_receive s).
Proof.
  unfold start_tcp_accept, start_udp_receive_connection_id.
  rewrite !outstanding_async. simpl. destruct s. unfold outstanding. simpl. lia.
Qed.

Lemma received_id_sends_one_reply s (id : Z) (sender : udp_endpoint) :
  ∃ s' found,
    run_handler UdpReceiveConnectionId (io_received id sender) s = Some s'
    ∧ io_service s' = io_service s ++ [UdpSendConnectionResult found sender].
Proof.
  simpl. unfold handle_udp_read_connection_id.
  destruct s as [conns next ep idb rb store io]. simpl.
  destruct (map_find id conns) as [c|]; simpl.
  - by eexists _, true.
  - by eexists _, false.
Qed.

(** C5, amended: [startup] leaves one receive outstanding.  The handler of
    a received identifier datagram, whether the identifier is found or not,
    sends one reply and arms no receive; the completion of that reply,
    successful or not, arms one receive.  The handler of a failed receive
    changes nothing and arms no receive.  Every [start_tcp_accept], the one
    of [startup] and the one after each accepted client, arms one receive
    more, so that the number of outstanding receives is not always one. *)
Theorem rendezvous_receive_rearming s :
  (∀ id_buffer result_buffer,
     outstanding is_udp_receive (startup (new_server id_buffer result_buffer)) = 1%nat)
  ∧ (∀ id sender,
       ∃ s' found,
         run_handler UdpReceiveConnectionId (io_received id sender) s = Some s'
         ∧ io_service s' = io_service s ++ [UdpSendConnectionResult found sender])
  ∧ (∀ result dest,
       run_handler (UdpSendConnectionResult result dest) io_done s
         = Some (async [UdpReceiveConnectionId] s)
       ∧ run_handler (UdpSendConnectionResult result dest) io_failed s
         = Some (async [UdpReceiveConnectionId] s))
  ∧ run_handler UdpReceiveConnectionId io_failed s = Some s
  ∧ outstanding is_udp_receive (start_tcp_accept s) = S (outstanding is_udp_receive s)
  ∧ (∀ connection,
       outstanding is_udp_receive (handle_tcp_accept connection ec_ok s)
       = S (outstanding is_udp_receive s)).
Proof.
  repeat split; try done.
  - intros id sender. apply received_id_sends_one_reply.
  - apply outstanding_start_tcp_accept.
  - intros connection. simpl.
    by rewrite outstanding_start_tcp_accept, outstanding_call_start.
Qed.
End Receive.

(** C5 as stated fails: after the first client has been accepted two
    receives are outstanding, and after a failed receive none is. *)
Lemma receives_outstanding_not_one :
  let accepted := run (W := small_wire) [ev_update [[(0%nat, io_done)]]]
                    (startup (new_server 0 false)) in
  let failed := run (W := small_wire) [ev_update [[(1%nat, io_failed)]]]
                  (startup (new_server 0 false)) in
  reachable (W := small_wire) accepted
  ∧ outstanding is_udp_receive accepted = 2%nat
  ∧ reachable (W := small_wire) failed
  ∧ outstanding is_udp_receive failed = 0%nat.
Proof.
  split; [by eexists 0, false, _|]. split; [by vm_compute|].
  split; [by eexists 0, false, _|]. by vm_compute.
Qed.

(** ** Two writes of one queue in flight *)


(** ** [update] *)

(** The fuel [update] gives to [poll] is enough. *)
Lemma update_returns `{W : Wire} (script : Script) (s : ServerNetworkManagerImpl) :
  ∃ f, poll scripted_poll (S (Z.to_nat k_max_iteration_count)) script s = Some f
       ∧ update script s = poll_server f.
Proof.
  unfold update, poll.
  destruct (poll_loop_terminates scripted_poll (S (Z.to_nat k_max_iteration_count))
              {| poll_server := s; poll_env := script; keep_polling := true;
                 iteration_count := 0; polled := 0 |})
    as (f & Hf & _).
  - simpl. unfold k_max_iteration_count. lia.
  - done.
  - simpl. unfold k_max_iteration_count. lia.
  - exists f. by rewrite Hf.
Qed.


(** * Further properties *)

(** ** Stopping and binding *)

Section StopBind.
Context `{W : Wire}.
Variable store : ResponseStore.

(** [stop] is idempotent; it leaves the socket closed and the connection
    stopped with both flags clear, and keeps both queues. *)
Theorem stop_idempotent (c : ClientConnection) :
  stop (stop c) = stop c
  ∧ m_tcp_socket_is_open (stop c) = false
  ∧ m_connection_stopped (stop c) = true
  ∧ m_has_pending_tcp_write (stop c) = false
  ∧ m_has_pending_udp_write (stop c) = false
  ∧ m_pending_responses (stop c) = m_pending_responses c
  ∧ m_pending_dataframes (stop c) = m_pending_dataframes c.
Proof. by destruct c as [? [] ? ? ? ? ? ? ? ? ?]. Qed.



End StopBind.

(** ** Write completions *)

Section Completion.
Context `{W : Wire}.
Variable store : ResponseStore.

(** A successful response write pops the head of the queue and goes
    straight on to the next response: if one is queued its write is started
    and the flag stays set, otherwise the connection is idle.  Nothing
    else is popped. *)
Theorem response_write_completion_chains (c : ClientConnection)
    (head : ResponsePtr) (rest : list ResponsePtr) :
  m_connection_stopped c = false →
  m_pending_responses c = head :: rest →
  let '(c', ops) := handle_write_response_complete ec_ok store c in
  m_pending_responses c' = rest
  ∧ m_has_pending_tcp_write c' = bool_decide (rest ≠ [])
  ∧ ops = match rest with
          | [] => []
          | next :: _ => [TcpWrite (m_connection_id c) (response_envelope store next)]
          end
  ∧ m_pending_dataframes c' = m_pending_dataframes c
  ∧ m_has_pending_udp_write c' = m_has_pending_udp_write c
  ∧ m_connection_stopped c' = false.
Proof.
  intros Hs Hq. unfold handle_write_response_complete, start_tcp_write_queued_response.
  destruct c as [id o e rb wb db pr pd st ptw puw]. simpl in *. subst st pr. simpl.
  by destruct rest.
Qed.

(** A successful data-frame write pops the head of the telemetry queue and
    clears the flag; it starts nothing, the next frame waiting for a scan. *)
Theorem dataframe_write_completion_pops (c : ClientConnection)
    (head : ControllerDataFrame) (rest : list ControllerDataFrame) :
  m_connection_stopped c = false →
  m_pending_dataframes c = head :: rest →
  let c' := handle_udp_write_controller_data_frame_complete ec_ok c in
  m_pending_dataframes c' = rest
  ∧ m_has_pending_udp_write c' = false
  ∧ m_pending_responses c' = m_pending_responses c
  ∧ m_has_pending_tcp_write c' = m_has_pending_tcp_write c
  ∧ (start_udp_write_queued_controller_data_frame c').1.1
    = bool_decide (rest ≠ []) && negb (oversize_head c').
Proof.
  intros Hs Hq. unfold handle_udp_write_controller_data_frame_complete.
  destruct c as [id o e rb wb db pr pd st ptw puw]. simpl in *. subst st pd. simpl.
  repeat split; try done.
  unfold start_udp_write_queued_controller_data_frame, oversize_head, pack_into. simpl.
  destruct rest as [|f rest]; [done|]. unfold ByteSize.
  rewrite bool_decide_true by done. simpl.
  case_decide; case_bool_decide; simpl; try done; lia.
Qed.

(** A failed write on either channel stops the connection: the failed
    item stays at the head of its queue and is not counted as written.  From
    then on, for as long as [start] is not called on the connection again,
    later enqueues only lengthen the queues, and attempts to start a write
    and completion callbacks return the connection as it is and hand no
    operation to the transport: the writes in flight are writes that were
    in flight at the failure. *)
Theorem write_failure_stops_connection (t : Traced) (events : list QueueEvent)
    (failed_on_tcp : bool) (data : list byte) (others : list (list byte)) :
  m_connection_stopped (conn t) = false →
  (if failed_on_tcp then tcp_in_flight t else udp_in_flight t) = data :: others →
  let failure := if failed_on_tcp then q_tcp_write_complete ec_failed
                 else q_udp_write_complete ec_failed in
  let t' := queue_run store (failure :: events) t in
  m_connection_stopped (conn t') = true
  ∧ m_has_pending_tcp_write (conn t') = false
  ∧ m_has_pending_udp_write (conn t') = false
  ∧ m_pending_responses (conn t') = m_pending_responses (conn t) ++ responses_added events
  ∧ m_pending_dataframes (conn t')
    = m_pending_dataframes (conn t) ++ dataframes_added events
  ∧ (length (tcp_in_flight t') ≤ length (tcp_in_flight t))%nat
  ∧ (length (udp_in_flight t') ≤ length (udp_in_flight t))%nat
  ∧ tcp_written (queue_step store t failure) = tcp_written t
  ∧ udp_written (queue_step store t failure) = udp_written t
  ∧ (∃ n, tcp_in_flight t' = drop n (tcp_in_flight t))
  ∧ (∃ n, udp_in_flight t' = drop n (udp_in_flight t))
  ∧ start_tcp_write_queued_response store (conn t') = (false, conn t', [])
  ∧ start_udp_write_queued_controller_data_frame (conn t') = (false, conn t', [])
  ∧ (∀ ec, handle_write_response_complete ec store (conn t') = (conn t', []))
  ∧ (∀ ec, handle_udp_write_controller_data_frame_complete ec (conn t') = conn t').
Proof.
  intros Hs Hin failure t'. subst t'. simpl.
  assert (stopped_like t (queue_step store t failure) [] []
          ∧ tcp_written (queue_step store t failure) = tcp_written t
          ∧ udp_written (queue_step store t failure) = udp_written t) as (Hinv & Htw & Huw).
  { unfold stopped_like, failure.
    destruct t as [c ti ui tw uw re fe].
    destruct c as [id o e rb wb db pr pd st ptw puw]. simpl in *. subst st.
    destruct failed_on_tcp; subst; simpl;
      unfold handle_write_response_complete,
        handle_udp_write_controller_data_frame_complete, stop; simpl;
      destruct o; simpl; rewrite ?app_nil_r; repeat split; try done; try lia;
      first [by exists 1%nat | by exists 0%nat]. }
  apply (stopped_like_run store events) in Hinv.
  destruct Hinv as (Hs' & ? & ? & ? & ? & ? & ? & ? & ?).
  destruct (stopped_guarded_operations_idle store _ Hs') as (? & ? & ? & ?).
  repeat split; done.
Qed.
End Completion.

Lemma response_write_completion_chains_witness :
  let store : ResponseStore :=
    {[ 1%positive := echo 7 [x0a]; 2%positive := echo 8 [x0b; x0c] ]} in
  let c := with_has_pending_tcp_write true
             (add_tcp_response_to_write_queue 2%positive
                (add_tcp_response_to_write_queue 1%positive
                   (new_connection (W := small_wire) 0))) in
  let '(c', ops) := handle_write_response_complete ec_ok store c in
  m_pending_responses c' = [2%positive]
  ∧ m_has_pending_tcp_write c' = bool_decide ([2%positive] ≠ [])
  ∧ ops = [TcpWrite (m_connection_id c) (response_envelope store 2%positive)]
  ∧ m_pending_dataframes c' = m_pending_dataframes c
  ∧ m_has_pending_udp_write c' = m_has_pending_udp_write c
  ∧ m_connection_stopped c' = false.
Proof.
  intros store c.
  apply (response_write_completion_chains (W := small_wire) store c 1%positive
           [2%positive]).
  - reflexivity.
  - reflexivity.
Defined.

Lemma dataframe_write_completion_pops_witness :
  let c := with_has_pending_udp_write true
             (add_controller_data_frame_to_write_queue small_frame
                (add_controller_data_frame_to_write_queue small_frame
                   (new_connection (W := small_wire) 0))) in
  let c' := handle_udp_write_controller_data_frame_complete ec_ok c in
  m_pending_dataframes c' = [small_frame]
  ∧ m_has_pending_udp_write c' = false
  ∧ m_pending_responses c' = m_pending_responses c
  ∧ m_has_pending_tcp_write c' = m_has_pending_tcp_write c
  ∧ (start_udp_write_queued_controller_data_frame c').1.1
    = bool_decide ([small_frame] ≠ []) && negb (oversize_head c').
Proof.
  intros c.
  apply (dataframe_write_completion_pops (W := small_wire) c small_frame [small_frame]).
  - reflexivity.
  - reflexivity.
Defined.

Lemma write_failure_stops_connection_witness :
  let t := queue_run (W := small_wire) ∅
             [q_add_controller_data_frame small_frame; q_start_udp_write]
             (traced_new 0) in
  let events := [q_add_controller_data_frame small_frame; q_start_udp_write;
                 q_add_tcp_response 1%positive; q_start_tcp_write] in
  let t' := queue_run ∅ (q_udp_write_complete ec_failed :: events) t in
  m_connection_stopped (conn t') = true
  ∧ m_has_pending_tcp_write (conn t') = false
  ∧ m_has_pending_udp_write (conn t') = false
  ∧ m_pending_responses (conn t') = m_pending_responses (conn t) ++ responses_added events
  ∧ m_pending_dataframes (conn t')
    = m_pending_dataframes (conn t) ++ dataframes_added events
  ∧ (length (tcp_in_flight t') ≤ length (tcp_in_flight t))%nat
  ∧ (length (udp_in_flight t') ≤ length (udp_in_flight t))%nat
  ∧ tcp_written (queue_step ∅ t (q_udp_write_complete ec_failed)) = tcp_written t
  ∧ udp_written (queue_step ∅ t (q_udp_write_complete ec_failed)) = udp_written t
  ∧ (∃ n, tcp_in_flight t' = drop n (tcp_in_flight t))
  ∧ (∃ n, udp_in_flight t' = drop n (udp_in_flight t))
  ∧ start_tcp_write_queued_response ∅ (conn t') = (false, conn t', [])
  ∧ start_udp_write_queued_controller_data_frame (conn t') = (false, conn t', [])
  ∧ (∀ ec, handle_write_response_complete ec ∅ (conn t') = (conn t', []))
  ∧ (∀ ec, handle_udp_write_controller_data_frame_complete ec (conn t') = conn t').
Proof.
  intros t events.
  apply (write_failure_stops_connection (W := small_wire) ∅ t events false
           [x00; x00; x00; x03; x01; x02; x03; x00; x00; x00; x00; x00] []).
  - reflexivity.
  - reflexivity.
Defined.

(** ** Starting a connection and reading requests *)

Section StartRead.
Context `{W : Wire}.
Implicit Types (c : ClientConnection).

(** [start] clears the stopped flag, allocates a connection-info response
    with request identifier [-1] and the identifier of the connection at an
    address no other response has, appends it to the response queue and arms
    the header read.  Unless a write is flagged as pending it starts writing
    the head of the queue, which is the new response only when the queue was
    empty. *)
Theorem start_sends_connection_info (store : ResponseStore) c :
  let p := fresh (dom store) in
  let '(store', c', ops) := start store c in
  store !! p = None
  ∧ store' = <[p := connection_info_response (m_connection_id c)]> store
  ∧ m_connection_stopped c' = false
  ∧ m_pending_responses c' = m_pending_responses c ++ [p]
  ∧ ops = (if m_has_pending_tcp_write c then []
           else [TcpWrite (m_connection_id c)
                   (response_envelope store' (hd p (m_pending_responses c)))])
          ++ [TcpReadHeader (m_connection_id c)]
  ∧ length (m_request_read_buffer c') = HEADER_SIZE.
Proof.
  intros p.
  assert (store !! p = None) as Hfresh by apply not_elem_of_dom, is_fresh.
  unfold start, send_connection_info, start_tcp_read_request_header,
    start_tcp_write_queued_response.
  destruct c as [id o e rb wb db pr pd st ptw puw]. simpl.
  destruct ptw; simpl.
  - repeat split; try done. by rewrite length_resize.
  - destruct pr as [|q pr]; simpl; repeat split; try done; by rewrite length_resize.
Qed.

Lemma fill_exact (target data : list byte) :
  length data = length target → fill target data = data.
Proof.
  intros Hlen. unfold fill.
  rewrite (drop_ge target) by lia. rewrite app_nil_r. apply take_ge. lia.
Qed.

Lemma as_unsigned_small (n : nat) :
  (Z.of_nat n < 2 ^ 32)%Z → as_unsigned n = n.
Proof.
  intros Hn. unfold as_unsigned.
  rewrite N.mod_small by lia. apply Nat2N.id.
Qed.

(** A declared length that brings the sum to [2 ^ 32] or more wraps
    around: the buffer is resized to the sum less [2 ^ 32], which is shorter
    than the header when the declared length itself fits an [unsigned]. *)
Lemma start_read_body_wraps c (msg_len : nat) :
  (2 ^ 32 ≤ Z.of_nat HEADER_SIZE + Z.of_nat msg_len < 2 ^ 33)%Z →
  Z.of_nat (length (m_request_read_buffer (start_read_body msg_len c).1))
  = (Z.of_nat HEADER_SIZE + Z.of_nat msg_len - 2 ^ 32)%Z.
Proof.
  intros Hwrap. unfold start_read_body. destruct c. simpl.
  rewrite length_resize. unfold as_unsigned.
  rewrite N_nat_Z, N2Z.inj_mod, nat_N_Z, Nat2Z.inj_add.
  change (Z.of_N (2 ^ 32)) with (2 ^ 32)%Z.
  symmetry. apply Z.mod_unique_pos with (q := 1%Z); lia.
Qed.

(** A request travels from the wire to the handler intact, when the length
    its header declares, added to [HEADER_SIZE], fits an [unsigned]: after a
    header of [HEADER_SIZE] bytes the body read is armed for the length the
    header declares, the buffer holds the header followed by room for that
    many bytes, and what the parser is given is exactly the body that was
    read.  A request that parses has the handler's response appended to the
    queue; one that does not is dropped without a response.  Either way the
    next header read is armed last. *)
Theorem request_reaches_handler (store : ResponseStore) c (header body : list byte) :
  length header = HEADER_SIZE →
  length body = decode_header header →
  (Z.of_nat HEADER_SIZE + Z.of_nat (decode_header header) < 2 ^ 32)%Z →
  let c1 := (start_tcp_read_request_header c).1 in
  let '(c2, ops2) := handle_tcp_read_request_header ec_ok header c1 in
  let '(store3, c3, ops3) := handle_read_body ec_ok body store c2 in
  ops2 = [TcpReadBody (m_connection_id c) (decode_header header)]
  ∧ m_request_read_buffer c2 = header ++ replicate (decode_header header) x00
  ∧ match parse_request body with
    | Some request =>
        store3 = <[fresh (dom store) := handle_request (m_connection_id c) request]> store
        ∧ m_pending_responses c3 = m_pending_responses c ++ [fresh (dom store)]
    | None => store3 = store ∧ m_pending_responses c3 = m_pending_responses c
    end
  ∧ last ops3 = Some (TcpReadHeader (m_connection_id c))
  ∧ m_connection_stopped c3 = m_connection_stopped c.
Proof.
  intros Hheader Hbody Hbound.
  unfold start_tcp_read_request_header, handle_tcp_read_request_header, start_read_body,
    handle_read_body, connection_handle_request.
  destruct c as [id o e rb wb db pr pd st ptw puw]. simpl.
  rewrite (fill_exact _ header) by by rewrite length_resize.
  rewrite (as_unsigned_small (decode_header header)) by lia.
  rewrite as_unsigned_small by lia.
  rewrite resize_add_eq by done.
  rewrite (take_app_length' header) by done.
  rewrite !(drop_app_length' header) by done.
  rewrite !(fill_exact _ body) by by rewrite length_replicate.
  destruct (parse_request body) as [request|]; simpl; [|done].
  unfold start_tcp_write_queued_response. simpl.
  destruct st, ptw, pr; simpl; done.
Qed.
End StartRead.

Lemma request_reaches_handler_witness :
  let c := new_connection (W := small_wire) 0 in
  let header := [x00; x00; x00; x02] in
  let body := [x0b; x0c] in
  let c1 := (start_tcp_read_request_header c).1 in
  let '(c2, ops2) := handle_tcp_read_request_header ec_ok header c1 in
  let '(store3, c3, ops3) := handle_read_body ec_ok body ∅ c2 in
  ops2 = [TcpReadBody (m_connection_id c) (decode_header header)]
  ∧ m_request_read_buffer c2 = header ++ replicate (decode_header header) x00
  ∧ match parse_request body with
    | Some request =>
        store3 = <[fresh (dom (∅ : ResponseStore))
                     := handle_request (m_connection_id c) request]> ∅
        ∧ m_pending_responses c3 = m_pending_responses c ++ [fresh (dom (∅ : ResponseStore))]
    | None => store3 = ∅ ∧ m_pending_responses c3 = m_pending_responses c
    end
  ∧ last ops3 = Some (TcpReadHeader (m_connection_id c))
  ∧ m_connection_stopped c3 = m_connection_stopped c.
Proof.
  apply (request_reaches_handler (W := small_wire) ∅ (new_connection 0)
           [x00; x00; x00; x02] [x0b; x0c]).
  - reflexivity.
  - reflexivity.
  - reflexivity.
Defined.

(** ** The telemetry scan *)

Section Scan.
Context `{W : Wire}.
Implicit Types (s : ServerNetworkManagerImpl) (c : ClientConnection).

Lemma scan_answers c :
  passed_over c = true ∨ write_in_progress c = true ∨ ready_to_write c = true.
Proof.
  unfold passed_over, write_in_progress, ready_to_write.
  destruct (m_connection_stopped c), (m_has_pending_udp_write c),
    (bool_decide (m_pending_dataframes c = [])), (oversize_head c); simpl; auto.
Qed.

Lemma start_udp_write_passed_over c :
  passed_over c = true →
  start_udp_write_queued_controller_data_frame c = (false, c, []).
Proof.
  unfold passed_over, oversize_head, start_udp_write_queued_controller_data_frame.
  destruct c as [id o e rb wb db pr pd st ptw puw]. simpl.
  destruct st; [done|]. destruct puw; [done|]. simpl.
  destruct pd as [|f rest]; [done|]. simpl. intros Hbig.
  apply bool_decide_eq_true in Hbig. by rewrite pack_into_too_large.
Qed.

Lemma start_udp_write_ready c :
  ready_to_write c = true →
  ∃ f rest,
    m_pending_dataframes c = f :: rest
    ∧ start_udp_write_queued_controller_data_frame c
      = (true,
         with_has_pending_udp_write true
           (with_dataframe_write_buffer
              (pack (dataframe_bytes f)
                 ++ drop (HEADER_SIZE + ByteSize f) (m_dataframe_write_buffer c)) c),
         [UdpSendDataFrame (m_connection_id c)
            (take dataframe_buffer_size
               (pack (dataframe_bytes f)
                  ++ drop (HEADER_SIZE + ByteSize f) (m_dataframe_write_buffer c)))
            (m_udp_remote_endpoint c)]).
Proof.
  unfold ready_to_write, oversize_head. intros Hready.
  destruct (m_connection_stopped c) eqn:Hs; [done|].
  destruct (m_has_pending_udp_write c) eqn:Hp; [done|].
  destruct (m_pending_dataframes c) as [|f rest] eqn:Hq; [done|]. simpl in Hready.
  apply negb_true_iff, bool_decide_eq_false in Hready.
  exists f, rest. split; [done|]. apply (start_udp_write_fits c f rest); try done. lia.
Qed.

(** First ready wins: when every connection ahead of it in registry order
    is passed over (it is stopped, or has no write pending and an empty
    queue or an oversize frame at the head), the scan starts the write of the
    first connection that is ready, addressed to its datagram peer and
    carrying the frame at the head of its queue, and touches nothing
    else. *)
Theorem scan_starts_first_ready s (front back : list (Z * ClientConnection))
    (id : Z) c :
  connections s = front ++ (id, c) :: back →
  Forall (λ entry, passed_over entry.2 = true) front →
  ready_to_write c = true →
  ∃ c' data f,
    connections (start_udp_queued_data_frame_write s) = front ++ (id, c') :: back
    ∧ io_service (start_udp_queued_data_frame_write s)
      = io_service s
          ++ [UdpSendDataFrame (m_connection_id c) data (m_udp_remote_endpoint c)]
    ∧ head (m_pending_dataframes c) = Some f
    ∧ carries data f
    ∧ m_has_pending_udp_write c' = true
    ∧ m_pending_dataframes c' = m_pending_dataframes c.
Proof.
  intros Hconns Hfront Hready.
  destruct (start_udp_write_ready c Hready) as (f & rest & Hq & Hstart).
  unfold ready_to_write, oversize_head in Hready. rewrite Hq in Hready.
  apply andb_true_iff in Hready as [_ Hfit].
  apply negb_true_iff, bool_decide_eq_false in Hfit.
  set (data := take dataframe_buffer_size
                 (pack (dataframe_bytes f)
                    ++ drop (HEADER_SIZE + ByteSize f) (m_dataframe_write_buffer c))) in *.
  set (c' := with_has_pending_udp_write true _) in Hstart.
  assert (start_udp_queued_data_frame_write_loop (front ++ (id, c) :: back)
          = (front ++ (id, c') :: back,
             [UdpSendDataFrame (m_connection_id c) data (m_udp_remote_endpoint c)]))
    as Hloop.
  { clear Hconns. induction front as [|[id0 c0] front IH]; simpl.
    - by rewrite Hstart.
    - inversion_clear Hfront as [|? ? Hc0 Hrest]. simpl in Hc0.
      rewrite (start_udp_write_passed_over c0 Hc0), (IH Hrest). done. }
  exists c', data, f. unfold start_udp_queued_data_frame_write.
  rewrite Hconns, Hloop. rewrite Hq. repeat split.
  - by destruct s.
  - by destruct s.
  - unfold data, pack, ByteSize. rewrite <- (assoc_L (++)).
    apply carries_transmit_buffer. unfold ByteSize in Hfit. lia.
  - unfold c'. by destruct c.
  - unfold c'. destruct c. simpl in *. done.
Qed.

Lemma start_udp_write_again c :
  start_udp_write_queued_controller_data_frame
    (start_udp_write_queued_controller_data_frame c).1.2
  = ((start_udp_write_queued_controller_data_frame c).1.1,
     (start_udp_write_queued_controller_data_frame c).1.2, []).
Proof.
  destruct (scan_answers c) as [Hc|[Hc|Hc]].
  - rewrite !(start_udp_write_passed_over c Hc). cbn [fst snd].
    by rewrite ?(start_udp_write_passed_over c Hc).
  - apply andb_true_iff in Hc as [Hs Hp]. apply negb_true_iff in Hs.
    rewrite !(start_udp_write_in_progress c Hs Hp). cbn [fst snd].
    by rewrite ?(start_udp_write_in_progress c Hs Hp).
  - destruct (start_udp_write_ready c Hc) as (f & rest & Hq & ->). cbn [fst snd].
    apply start_udp_write_in_progress.
    + apply andb_true_iff in Hc as [Hc _]. apply andb_true_iff in Hc as [Hc _].
      apply andb_true_iff in Hc as [Hs _]. apply negb_true_iff in Hs. by destruct c.
    + by destruct c.
Qed.

Lemma scan_loop_again (conns : list (Z * ClientConnection)) :
  start_udp_queued_data_frame_write_loop (start_udp_queued_data_frame_write_loop conns).1
  = ((start_udp_queued_data_frame_write_loop conns).1, []).
Proof.
  induction conns as [|[id c] conns IH]; simpl; [done|].
  pose proof (start_udp_write_again c) as Hagain.
  destruct (start_udp_write_queued_controller_data_frame c) as [[b c'] ops].
  simpl in Hagain. destruct b; simpl.
  - by rewrite Hagain.
  - destruct (start_udp_queued_data_frame_write_loop conns) as [rest ops'].
    simpl in *. by rewrite Hagain, IH.
Qed.

Lemma scan_settled s :
  start_udp_queued_data_frame_write (start_udp_queued_data_frame_write s)
  = start_udp_queued_data_frame_write s.
Proof.
  unfold start_udp_queued_data_frame_write.
  pose proof (scan_loop_again (connections s)) as Hagain.
  destruct (start_udp_queued_data_frame_write_loop (connections s)) as [conns ops].
  simpl in Hagain. destruct s as [cs next ep idb rb store io]. simpl in *.
  rewrite Hagain. unfold async. simpl. by rewrite app_nil_r.
Qed.

(** A scan right after a scan does nothing, and neither does any number of
    further scans: the write the first one started, or found in progress,
    stops each of them at the same connection. *)
Theorem scan_twice_is_scan_once s (more : nat) :
  start_udp_queued_data_frame_write (start_udp_queued_data_frame_write s)
  = start_udp_queued_data_frame_write s
  ∧ Nat.iter more start_udp_queued_data_frame_write (start_udp_queued_data_frame_write s)
    = start_udp_queued_data_frame_write s.
Proof.
  split; [apply scan_settled|].
  induction more as [|more IH]; simpl; [done|].
  rewrite IH. apply scan_settled.
Qed.
End Scan.

Lemma scan_starts_first_ready_witness :
  let stopped := stop (add_controller_data_frame_to_write_queue small_frame
                         (new_connection (W := small_wire) 0)) in
  let blocked := add_controller_data_frame_to_write_queue oversize_frame
                   (new_connection (W := small_wire) 1) in
  let ready := add_controller_data_frame_to_write_queue small_frame
                 (new_connection (W := small_wire) 2) in
  let s := with_connections [(0, stopped); (1, blocked); (2, ready)]
             (new_server 0 false) in
  ∃ c' data f,
    connections (start_udp_queued_data_frame_write s)
      = [(0, stopped); (1, blocked)] ++ (2, c') :: []
    ∧ io_service (start_udp_queued_data_frame_write s)
      = io_service s
          ++ [UdpSendDataFrame (m_connection_id ready) data (m_udp_remote_endpoint ready)]
    ∧ head (m_pending_dataframes ready) = Some f
    ∧ carries data f
    ∧ m_has_pending_udp_write c' = true
    ∧ m_pending_dataframes c' = m_pending_dataframes ready.
Proof.
  intros stopped blocked ready s.
  apply (scan_starts_first_ready (W := small_wire) s
           [(0, stopped); (1, blocked)] [] 2 ready).
  - reflexivity.
  - repeat constructor.
  - reflexivity.
Defined.

(** ** Telemetry ready to start *)

Section Ready.
Context `{W : Wire}.
Implicit Types (s : ServerNetworkManagerImpl) (c : ClientConnection).

Lemma ready_to_start_loop_spec (conns : list (Z * ClientConnection)) (has available : bool) :
  (ready_to_start_loop conns has available).2
    && (ready_to_start_loop conns has available).1 = true
  ↔ available = true
    ∧ Forall (λ entry, m_has_pending_udp_write entry.2 = false) conns
    ∧ (has = true ∨ Exists (λ entry, m_pending_dataframes entry.2 ≠ []) conns).
Proof.
  revert has. induction conns as [|[id c] conns IH]; intros has; simpl.
  - rewrite andb_true_iff, Exists_nil. split.
    + intros [-> ->]. split; [done|]. split; [constructor|by left].
    + intros (-> & _ & [->|[]]). done.
  - unfold has_pending_udp_write, has_queued_controller_data_frames.
    rewrite Forall_cons, Exists_cons. simpl.
    destruct (m_has_pending_udp_write c); simpl.
    { split; [done|]. by intros (_ & [? _] & _). }
    case_bool_decide as Hq; rewrite IH.
    + assert (m_pending_dataframes c ≠ [])
        by (destruct (m_pending_dataframes c); [simpl in Hq; lia|done]).
      clear IH. intuition auto.
    + assert (m_pending_dataframes c = [])
        by (destruct (m_pending_dataframes c); [done|simpl in Hq; lia]).
      clear IH. intuition auto.
Qed.

(** The ready test of [poll] answers yes exactly when no connection of the
    registry has its data-frame flag set and some connection has a frame
    queued.  It does not look at the stopped flag, nor at whether the frame
    fits. *)
Theorem ready_test_meaning s :
  has_queued_controller_data_frames_ready_to_start s = true
  ↔ Forall (λ entry, m_has_pending_udp_write entry.2 = false) (connections s)
    ∧ Exists (λ entry, m_pending_dataframes entry.2 ≠ []) (connections s).
Proof.
  unfold has_queued_controller_data_frames_ready_to_start.
  pose proof (ready_to_start_loop_spec (connections s) false true) as Hspec.
  destruct (ready_to_start_loop (connections s) false true) as [has available].
  simpl in Hspec. rewrite Hspec. intuition (auto; discriminate).
Qed.

Lemma scan_loop_all_idle (conns : list (Z * ClientConnection)) :
  Forall (λ entry, m_has_pending_udp_write entry.2 = false)
    (start_udp_queued_data_frame_write_loop conns).1 →
  Forall (λ entry, passed_over entry.2 = true) conns
  ∧ start_udp_queued_data_frame_write_loop conns = (conns, []).
Proof.
  induction conns as [|[id c] conns IH]; simpl; [done|].
  destruct (scan_answers c) as [Hc|[Hc|Hc]].
  - rewrite (start_udp_write_passed_over c Hc).
    destruct (start_udp_queued_data_frame_write_loop conns) as [rest ops]. simpl in *.
    intros [_ Hrest]%Forall_cons. destruct (IH Hrest) as [Hall [= -> ->]].
    split; [by constructor|done].
  - apply andb_true_iff in Hc as [Hs Hp]. apply negb_true_iff in Hs.
    rewrite (start_udp_write_in_progress c Hs Hp). simpl.
    intros [Hflag _]%Forall_cons. simpl in Hflag. congruence.
  - destruct (start_udp_write_ready c Hc) as (f & rest & Hq & ->). simpl.
    intros [Hflag _]%Forall_cons. by destruct c.
Qed.

(** When the ready test still answers yes right after a scan, the scan has
    started nothing and changed nothing, and a frame is queued that no scan
    can start: its connection is stopped, or the frame at the head of its
    queue is oversize.  These are the only states in which [poll] goes round
    without a completion. *)
Theorem ready_after_scan_means_stuck s :
  has_queued_controller_data_frames_ready_to_start (start_udp_queued_data_frame_write s)
    = true →
  connections (start_udp_queued_data_frame_write s) = connections s
  ∧ io_service (start_udp_queued_data_frame_write s) = io_service s
  ∧ Exists (λ entry, stuck entry.2) (connections s).
Proof.
  unfold has_queued_controller_data_frames_ready_to_start,
    start_udp_queued_data_frame_write.
  pose proof (scan_loop_all_idle (connections s)) as Hidle.
  destruct (start_udp_queued_data_frame_write_loop (connections s)) as [conns ops].
  destruct s as [cs next ep idb rb store io]. simpl in *.
  pose proof (ready_to_start_loop_spec conns false true) as Hspec.
  destruct (ready_to_start_loop conns false true) as [has available]. simpl in Hspec.
  intros Hready. apply Hspec in Hready as (_ & Hflags & [?|Hqueued]); [done|].
  destruct (Hidle Hflags) as [Hpassed [= -> ->]].
  split; [done|]. split; [by rewrite app_nil_r|].
  apply Exists_exists in Hqueued as ([id c] & Hin & Hq). simpl in Hq.
  apply Exists_exists. exists (id, c). split; [done|]. split; [done|]. simpl.
  rewrite Forall_forall in Hpassed. specialize (Hpassed _ Hin). simpl in Hpassed.
  rewrite Forall_forall in Hflags. specialize (Hflags _ Hin). simpl in Hflags.
  unfold passed_over in Hpassed. rewrite Hflags in Hpassed. simpl in Hpassed.
  destruct (m_connection_stopped c); [by left|]. simpl in Hpassed. right.
  rewrite bool_decide_false in Hpassed by done. done.
Qed.

Lemma while_unfold {S : Type} (fuel : nat) (cond : S → bool) (body : S → S) (st : S) :
  while (Datatypes.S fuel) cond body st
  = if cond st then while fuel cond body (body st) else Some st.
Proof. done. Qed.

Lemma poll_first_iteration (fuel : nat) (script : Script) s :
  poll scripted_poll (S fuel) script s
  = while fuel poll_cond (poll_body scripted_poll)
      (poll_body scripted_poll
         {| poll_server := s; poll_env := script; keep_polling := true;
            iteration_count := 0; polled := 0 |}).
Proof. done. Qed.

Lemma poll_idle_server (fuel : nat) (f f' : @PollFrame Script) s :
  poll_server f = start_udp_queued_data_frame_write s →
  poll_env f = [] →
  while fuel poll_cond (poll_body scripted_poll) f = Some f' →
  poll_server f' = start_udp_queued_data_frame_write s.
Proof.
  revert f. induction fuel as [|fuel IH]; intros f Hs He; [done|].
  rewrite while_unfold. destruct (poll_cond f); [|by intros [= ->]].
  apply IH; unfold poll_body; rewrite He, Hs; simpl; [|done].
  apply scan_settled.
Qed.

(** A tick in which nothing completes comes to one telemetry scan, however
    many times the loop goes round. *)
Theorem update_without_completions s :
  update [] s = start_udp_queued_data_frame_write s.
Proof.
  destruct (update_returns [] s) as (f & Hf & ->).
  rewrite poll_first_iteration in Hf.
  by apply (poll_idle_server _ _ _ s) in Hf.
Qed.
End Ready.

Lemma ready_after_scan_means_stuck_witness :
  let blocked := add_controller_data_frame_to_write_queue oversize_frame
                   (new_connection (W := small_wire) 0) in
  let s := with_connections [(0, blocked)] (new_server 0 false) in
  connections (start_udp_queued_data_frame_write s) = connections s
  ∧ io_service (start_udp_queued_data_frame_write s) = io_service s
  ∧ Exists (λ entry, stuck entry.2) (connections s).
Proof.
  intros blocked s.
  apply (ready_after_scan_means_stuck (W := small_wire) s). reflexivity.
Defined.

(** ** Sending through the registry *)

Section Sending.
Context `{W : Wire}.
Implicit Types (s : ServerNetworkManagerImpl) (c : ClientConnection).

Lemma map_set_keys {V : Type} (k : Z) (v : V) (m : list (Z * V)) :
  (map_set k v m).*1 = m.*1.
Proof.
  induction m as [|[k' v'] m IH]; csimpl; [done|].
  case_decide; csimpl; by rewrite ?IH.
Qed.

Lemma map_find_Some_key {V : Type} (k : Z) (v : V) (m : list (Z * V)) :
  map_find k m = Some v → k ∈ m.*1.
Proof.
  induction m as [|[k' v'] m IH]; csimpl; [done|].
  case_decide; [subst; intros _; apply list_elem_of_here|].
  intros Hfind. apply list_elem_of_further. by apply IH.
Qed.

Lemma notify_effect (p : ResponsePtr) (store : ResponseStore) c :
  (notify p store c).1.1 = store
  ∧ m_pending_responses (notify p store c).1.2 = m_pending_responses c ++ [p]
  ∧ m_pending_dataframes (notify p store c).1.2 = m_pending_dataframes c
  ∧ m_connection_stopped (notify p store c).1.2 = m_connection_stopped c
  ∧ m_connection_id (notify p store c).1.2 = m_connection_id c
  ∧ (notify p store c).2
    = if m_connection_stopped c || m_has_pending_tcp_write c then []
      else [TcpWrite (m_connection_id c)
              (response_envelope store (hd p (m_pending_responses c)))].
Proof.
  unfold notify, start_tcp_write_queued_response.
  destruct c as [id o e rb wb db pr pd st ptw puw]. simpl.
  destruct st, ptw, pr; done.
Qed.

Lemma call_notify p id s :
  responses (call id (notify p) s) = responses s
  ∧ (connections (call id (notify p) s)).*1 = (connections s).*1
  ∧ (∀ other, other ≠ id →
       map_find other (connections (call id (notify p) s))
       = map_find other (connections s))
  ∧ (∀ c, map_find id (connections s) = Some c →
       map_find id (connections (call id (notify p) s))
       = Some (notify p (responses s) c).1.2
       ∧ io_service (call id (notify p) s)
         = io_service s ++ (notify p (responses s) c).2).
Proof.
  unfold call. destruct s as [cs next ep idb rb store io]. simpl.
  destruct (map_find id cs) as [c|] eqn:Hfind; [|done].
  destruct (notify_effect p store c) as (Hstore & _).
  destruct (notify p store c) as [[store' c'] ops] eqn:Hnotify.
  simpl in *. subst store'.
  split; [done|]. split; [apply map_set_keys|]. split.
  - intros other Hne. by apply map_find_set_ne.
  - intros ? [= <-]. rewrite Hnotify. simpl. by rewrite map_find_set_eq, Hfind.
Qed.

(** A notification for a registered connection sets the request identifier
    of the response object to [-1] and appends the response to the queue of
    that connection and of no other.  If the connection is idle the write
    starts at once, and what is written is the envelope of the response with
    identifier [-1]; if it is stopped or already writing nothing is
    started. *)
Theorem send_notification_registered s (connection_id : Z) (response : ResponsePtr)
    (r : Response) c :
  map_find connection_id (connections s) = Some c →
  responses s !! response = Some r →
  let s' := send_notification connection_id response s in
  responses s' = alter (set_request_id (-1)) response (responses s)
  ∧ (∃ c', map_find connection_id (connections s') = Some c'
           ∧ m_pending_responses c' = m_pending_responses c ++ [response]
           ∧ m_pending_dataframes c' = m_pending_dataframes c
           ∧ m_connection_stopped c' = m_connection_stopped c)
  ∧ (∀ other, other ≠ connection_id →
       map_find other (connections s') = map_find other (connections s))
  ∧ io_service s'
    = io_service s
        ++ (if m_connection_stopped c || m_has_pending_tcp_write c then []
            else if m_pending_responses c is _ :: _ then
              [TcpWrite (m_connection_id c)
                 (response_envelope (alter (set_request_id (-1)) response (responses s))
                    (hd response (m_pending_responses c)))]
            else [TcpWrite (m_connection_id c)
                    (pack (serialize_response (set_request_id (-1) r)))]).
Proof.
  intros Hfind Hr s'. subst s'. unfold send_notification. rewrite Hfind.
  set (s1 := with_responses _ s).
  assert (connections s1 = connections s) as Hconns by by destruct s.
  assert (io_service s1 = io_service s) as Hio by by destruct s.
  assert (responses s1 = alter (set_request_id (-1)) response (responses s)) as Hstore
    by by destruct s.
  destruct (call_notify response connection_id s1) as (Hresp & _ & Hother & Hthis).
  rewrite Hconns in Hother, Hthis. destruct (Hthis c Hfind) as [Hc' Hops].
  destruct (notify_effect response (responses s1) c) as (_ & Hq & Hd & Hs & _ & Hnotify).
  rewrite Hresp, Hstore. split; [done|]. split; [by eexists|]. split; [done|].
  rewrite Hops, Hio, Hnotify, Hstore.
  destruct (m_connection_stopped c || m_has_pending_tcp_write c); [done|].
  destruct (m_pending_responses c); [|done]. simpl.
  unfold response_envelope, pointee_bytes. by rewrite lookup_alter_eq, Hr.
Qed.

Lemma broadcast_fold (p : ResponsePtr) (todo : list (Z * ClientConnection)) s :
  NoDup todo.*1 →
  let s' := foldl (λ s entry, call entry.1 (notify p) s) s todo in
  responses s' = responses s
  ∧ (connections s').*1 = (connections s).*1
  ∧ ∀ id c, map_find id (connections s) = Some c →
      ∃ c', map_find id (connections s') = Some c'
            ∧ m_pending_responses c'
              = m_pending_responses c ++ (if bool_decide (id ∈ todo.*1) then [p] else []).
Proof.
  revert s. induction todo as [|[k v] todo IH]; intros s Hnodup; csimpl in *.
  - split; [done|]. split; [done|]. intros id c Hfind. exists c.
    by rewrite app_nil_r.
  - apply NoDup_cons in Hnodup as [Hk Hnodup].
    destruct (IH (call k (notify p) s) Hnodup) as (Hresp & Hkeys & Hall).
    destruct (call_notify p k s) as (Hresp1 & Hkeys1 & Hother & Hthis).
    split; [congruence|]. split; [congruence|]. intros id c Hfind.
    destruct (decide (id = k)) as [->|Hne].
    + destruct (Hthis c Hfind) as [Hc1 _].
      destruct (Hall k _ Hc1) as (c' & Hc' & Hq). exists c'. split; [done|].
      destruct (notify_effect p (responses s) c) as (_ & Hq1 & _).
      rewrite Hq, Hq1, bool_decide_false by done.
      rewrite bool_decide_true by apply list_elem_of_here. by rewrite app_nil_r.
    + rewrite <- (Hother id Hne) in Hfind.
      destruct (Hall id c Hfind) as (c' & Hc' & Hq). exists c'. split; [done|].
      rewrite Hq.
      rewrite (bool_decide_ext (id ∈ k :: todo.*1) (id ∈ todo.*1)); [done|].
      rewrite elem_of_cons. split; [by intros [?|?]|by right].
Qed.

(** A broadcast sets the request identifier of the response object to [-1]
    and appends the one shared response to the queue of every connection of
    the registry, once each. *)
Theorem broadcast_reaches_every_connection s (response : ResponsePtr) :
  NoDup (connections s).*1 →
  let s' := send_notification_to_all_clients response s in
  responses s' = alter (set_request_id (-1)) response (responses s)
  ∧ (connections s').*1 = (connections s).*1
  ∧ ∀ id c, map_find id (connections s) = Some c →
      ∃ c', map_find id (connections s') = Some c'
            ∧ m_pending_responses c' = m_pending_responses c ++ [response].
Proof.
  intros Hnodup s'. subst s'. unfold send_notification_to_all_clients.
  set (s1 := with_responses _ s).
  assert (connections s1 = connections s) as Hconns by by destruct s.
  assert (responses s1 = alter (set_request_id (-1)) response (responses s)) as Hstore
    by by destruct s.
  rewrite Hconns. rewrite <- Hconns in Hnodup at 1.
  destruct (broadcast_fold response (connections s) s1) as (Hresp & Hkeys & Hall);
    [by rewrite <- Hconns|].
  rewrite Hconns in Hkeys, Hall. split; [congruence|]. split; [done|].
  intros id c Hfind. destruct (Hall id c Hfind) as (c' & Hc' & Hq).
  exists c'. split; [done|].
  by rewrite Hq, bool_decide_true by by eapply map_find_Some_key.
Qed.
End Sending.

Lemma send_notification_registered_witness :
  let s := step (W := small_wire) (startup (new_server 0 false))
             (ev_new_response (echo 41 [x0a])) in
  let s' := send_notification 0 1%positive s in
  responses s' = alter (set_request_id (-1)) 1%positive (responses s)
  ∧ (∃ c', map_find 0 (connections s') = Some c'
           ∧ m_pending_responses c' = [] ++ [1%positive]
           ∧ m_pending_dataframes c' = []
           ∧ m_connection_stopped c' = false)
  ∧ io_service s'
    = io_service s ++ [TcpWrite 0 (pack (serialize_response
                                           (set_request_id (-1) (echo 41 [x0a]))))].
Proof.
  intros s s'.
  destruct (send_notification_registered (W := small_wire) s 0 1%positive
              (echo 41 [x0a]) (new_connection 0) eq_refl eq_refl)
    as (Hstore & Hconn & _ & Hio).
  split; [exact Hstore|]. split; [exact Hconn|exact Hio].
Defined.

Lemma broadcast_reaches_every_connection_witness :
  let s := run (W := small_wire)
             [ev_update [[(0%nat, io_done)]]; ev_new_response (echo 41 [x0a])]
             (startup (new_server 0 false)) in
  let s' := send_notification_to_all_clients 2%positive s in
  responses s' = alter (set_request_id (-1)) 2%positive (responses s)
  ∧ (connections s').*1 = (connections s).*1
  ∧ ∀ id c, map_find id (connections s) = Some c →
      ∃ c', map_find id (connections s') = Some c'
            ∧ m_pending_responses c' = m_pending_responses c ++ [2%positive].
Proof.
  intros s.
  apply (broadcast_reaches_every_connection (W := small_wire) s 2%positive).
  vm_compute. apply (bool_decide_unpack (NoDup [0; 1])). vm_compute. exact I.
Defined.

(** ** Sending telemetry *)

Section Telemetry.
Context `{W : Wire}.
Implicit Types (s : ServerNetworkManagerImpl) (c : ClientConnection).

Lemma start_udp_write_keeps_queue c :
  m_pending_dataframes (start_udp_write_queued_controller_data_frame c).1.2
  = m_pending_dataframes c
  ∧ m_connection_id (start_udp_write_queued_controller_data_frame c).1.2
    = m_connection_id c.
Proof.
  unfold start_udp_write_queued_controller_data_frame.
  destruct c as [id o e rb wb db pr pd st ptw puw]. simpl.
  destruct st, puw, pd as [|f rest]; try done.
  by destruct (pack_into _ _ _) as [[] buffer].
Qed.


End Telemetry.

(** ** Invariants of the running server *)

Section ServerInvariants.
Context `{W : Wire}.
Implicit Types (s : ServerNetworkManagerImpl) (c : ClientConnection).

Lemma quiet_refl s : quiet s s.
Proof.
  split; [done|]. split; [done|]. split; [done|].
  exists []. split; [by rewrite app_nil_r|constructor].
Qed.

Lemma quiet_trans s1 s2 s3 : quiet s1 s2 → quiet s2 s3 → quiet s1 s3.
Proof.
  intros (Hn1 & Hk1 & Hi1 & ops1 & Hio1 & Hops1) (Hn2 & Hk2 & Hi2 & ops2 & Hio2 & Hops2).
  split; [congruence|]. split; [congruence|]. split; [auto|].
  exists (ops1 ++ ops2). split; [by rewrite Hio2, Hio1, (assoc_L (++))|].
  by apply Forall_app.
Qed.

Lemma outstanding_app kind s ops :
  (∀ op, is_connection_op op = true → kind op = false) →
  Forall (λ op, is_connection_op op = true) ops →
  length (filter (λ op, kind op = true) (io_service s ++ ops)) = outstanding kind s.
Proof.
  intros Hkind Hops. unfold outstanding. rewrite filter_app, length_app.
  assert (filter (λ op, kind op = true) ops = []) as ->; [|simpl; lia].
  induction Hops as [|op ops Hop _ IH]; [done|].
  rewrite filter_cons_False; [done|]. by rewrite (Hkind op Hop).
Qed.

Lemma quiet_slack a r s s' : quiet s s' → slack a r s → slack a r s'.
Proof.
  intros (Hn & Hk & Hi & ops & Hio & Hops) ((Hpos & Hkeys & Hids) & Hacc & Hrecv).
  assert (length (connections s') = length (connections s)) as Hlen.
  { by rewrite <- (length_fmap fst (connections s')), Hk, length_fmap. }
  split; [split; [congruence|split; [congruence|auto]]|].
  unfold outstanding. rewrite Hio, Hlen.
  rewrite !(outstanding_app _ s ops) by (done || by intros []).
  done.
Qed.

Lemma slack_server_ok s : slack 0 0 s ↔ server_ok s.
Proof.
  unfold slack, server_ok, coordinator_ok. rewrite !Nat.add_0_r. tauto.
Qed.

Lemma slack_weaken a r s : slack a r s → slack 0 0 s.
Proof. intros (Hreg & Hacc & Hrecv). split; [done|]. split; lia. Qed.

Lemma map_find_Forall {V : Type} (P : Z * V → Prop) (k : Z) (v : V) (m : list (Z * V)) :
  map_find k m = Some v → Forall P m → P (k, v).
Proof.
  induction m as [|[k' v'] m IH]; simpl; [done|].
  intros Hfind [Hhead Hrest]%Forall_cons. case_decide; [|by apply IH].
  by simplify_eq.
Qed.

Lemma map_set_Forall {V : Type} (P : Z * V → Prop) (k : Z) (v : V) (m : list (Z * V)) :
  P (k, v) → Forall P m → Forall P (map_set k v m).
Proof.
  intros Hv. induction m as [|[k' v'] m IH]; simpl; [done|].
  intros [Hhead Hrest]%Forall_cons. case_decide; subst; constructor; auto.
Qed.

Lemma call_quiet id method s : tame method → quiet s (call id method s).
Proof.
  intros Htame. unfold call.
  destruct (map_find id (connections s)) as [c|] eqn:Hfind; [|apply quiet_refl].
  destruct (Htame (responses s) c) as [Hid Hops].
  destruct (method (responses s) c) as [[store c'] ops]. simpl in *.
  destruct s as [cs next ep idb rb st io]. simpl in *.
  split; [done|]. split; [apply map_set_keys|]. split; [|by exists ops].
  intros Hids. apply map_set_Forall; [|done]. simpl. rewrite Hid.
  by apply (map_find_Forall _ _ _ _ Hfind Hids).
Qed.

Lemma tame_notify (p : ResponsePtr) : tame (notify p).
Proof.
  intros store c. destruct (notify_effect p store c) as (_ & _ & _ & _ & Hid & ->).
  split; [done|]. destruct (_ || _); by repeat constructor.
Qed.

Lemma tame_start : tame start.
Proof.
  intros store c. unfold start, send_connection_info, start_tcp_read_request_header,
    start_tcp_write_queued_response.
  destruct c as [id o e rb wb db pr pd st ptw puw]. simpl.
  destruct ptw; simpl; [by repeat constructor|].
  destruct pr; simpl; by repeat constructor.
Qed.

Lemma tame_open : tame (λ store c, (store, with_tcp_socket_is_open true c, [])).
Proof. intros store c. simpl. split; [by destruct c|constructor]. Qed.

Lemma tame_read_header ec data :
  tame (λ store c,
          let '(c, ops) := handle_tcp_read_request_header ec data c in (store, c, ops)).
Proof.
  intros store c. unfold handle_tcp_read_request_header, start_read_body.
  destruct c as [id o e rb wb db pr pd st ptw puw].
  destruct ec; simpl; by repeat constructor.
Qed.

Lemma tame_read_body ec data : tame (handle_read_body ec data).
Proof.
  intros store c. unfold handle_read_body, connection_handle_request,
    start_tcp_read_request_header, start_tcp_write_queued_response.
  destruct c as [id o e rb wb db pr pd st ptw puw].
  destruct ec; simpl; [|by repeat constructor].
  destruct (parse_request _); simpl; [|by repeat constructor].
  destruct st, ptw, pr; simpl; by repeat constructor.
Qed.

Lemma tame_write_complete ec :
  tame (λ store c,
          let '(c, ops) := handle_write_response_complete ec store c in (store, c, ops)).
Proof.
  intros store c. unfold handle_write_response_complete,
    start_tcp_write_queued_response, stop.
  destruct c as [id o e rb wb db pr pd st ptw puw].
  destruct st, ec, o, pr as [|? [|? ?]]; simpl; by repeat constructor.
Qed.

Lemma tame_dataframe_complete ec :
  tame (λ store c, (store, handle_udp_write_controller_data_frame_complete ec c, [])).
Proof.
  intros store c. unfold handle_udp_write_controller_data_frame_complete, stop.
  destruct c as [id o e rb wb db pr pd st ptw puw].
  destruct st, ec, o; simpl; by repeat constructor.
Qed.

Lemma scan_loop_quiet (conns : list (Z * ClientConnection)) :
  (start_udp_queued_data_frame_write_loop conns).1.*1 = conns.*1
  ∧ (Forall (λ entry, m_connection_id entry.2 = entry.1) conns →
     Forall (λ entry, m_connection_id entry.2 = entry.1)
       (start_udp_queued_data_frame_write_loop conns).1)
  ∧ Forall (λ op, is_connection_op op = true)
      (start_udp_queued_data_frame_write_loop conns).2.
Proof.
  induction conns as [|[id c] conns (IHk & IHi & IHo)]; csimpl; [done|].
  destruct (start_udp_write_keeps_queue c) as [_ Hid].
  assert (Forall (λ op, is_connection_op op = true)
            (start_udp_write_queued_controller_data_frame c).2) as Hops.
  { destruct (start_udp_write_cases c) as [(b & c' & ->)|(c' & data & dest & ->)];
      by repeat constructor. }
  destruct (start_udp_write_queued_controller_data_frame c) as [[b c'] ops].
  simpl in *. destruct b; csimpl.
  - split; [done|]. split; [|done].
    intros [Hhead Hrest]%Forall_cons. constructor; [simpl in *; congruence|done].
  - destruct (start_udp_queued_data_frame_write_loop conns) as [rest ops'].
    csimpl in *. split; [by rewrite IHk|]. split; [|by apply Forall_app].
    intros [Hhead Hrest]%Forall_cons. constructor; [simpl in *; congruence|auto].
Qed.

Lemma scan_quiet s : quiet s (start_udp_queued_data_frame_write s).
Proof.
  unfold start_udp_queued_data_frame_write.
  destruct (scan_loop_quiet (connections s)) as (Hk & Hi & Ho).
  destruct (start_udp_queued_data_frame_write_loop (connections s)) as [conns ops].
  destruct s as [cs next ep idb rb st io]. simpl in *.
  split; [done|]. split; [done|]. split; [done|]. by exists ops.
Qed.

Lemma with_responses_quiet store s : quiet s (with_responses store s).
Proof.
  destruct s as [cs next ep idb rb st io].
  split; [done|]. split; [done|]. split; [done|].
  exists []. simpl. split; [by rewrite app_nil_r|constructor].
Qed.

Lemma send_notification_quiet id p s : quiet s (send_notification id p s).
Proof.
  unfold send_notification.
  destruct (map_find id (connections s)); [|apply with_responses_quiet].
  eapply quiet_trans; [apply with_responses_quiet|apply call_quiet, tame_notify].
Qed.

Lemma broadcast_quiet p s : quiet s (send_notification_to_all_clients p s).
Proof.
  unfold send_notification_to_all_clients.
  eapply quiet_trans;
    [apply (with_responses_quiet (alter (set_request_id (-1)) p (responses s)) s)|].
  generalize (connections (with_responses (alter (set_request_id (-1)) p (responses s)) s)).
  generalize (with_responses (alter (set_request_id (-1)) p (responses s)) s).
  intros s0 todo. revert s0. induction todo as [|entry todo IH]; intros s0; simpl.
  - apply quiet_refl.
  - eapply quiet_trans; [apply call_quiet, tame_notify|apply IH].
Qed.

Lemma send_controller_data_frame_quiet id f s :
  quiet s (send_controller_data_frame id f s).
Proof.
  unfold send_controller_data_frame.
  destruct (map_find id (connections s)) as [c|] eqn:Hfind; [|apply quiet_refl].
  eapply quiet_trans; [|apply scan_quiet].
  destruct s as [cs next ep idb rb st io]. simpl in *.
  split; [done|]. split; [apply map_set_keys|]. split.
  - intros Hids. apply map_set_Forall; [|done].
    pose proof (map_find_Forall _ _ _ _ Hfind Hids) as Hid. simpl in *. by destruct c.
  - exists []. simpl. split; [by rewrite app_nil_r|constructor].
Qed.

Lemma map_insert_last {V : Type} (k : Z) (v : V) (m : list (Z * V)) :
  Forall (λ entry, entry.1 < k) m → map_insert k v m = m ++ [(k, v)].
Proof.
  induction m as [|[k' v'] m IH]; simpl; [done|].
  intros [Hhead Hrest]%Forall_cons. simpl in Hhead.
  repeat case_decide; try lia. by rewrite IH.
Qed.

Lemma registry_keys_below s :
  registry_ok s → Forall (λ entry, entry.1 < next_connection_id s) (connections s).
Proof.
  intros (Hpos & Hkeys & _). apply Forall_forall. intros [k c] Hin. simpl.
  assert (k ∈ (connections s).*1) as Hk.
  { apply list_elem_of_fmap. by exists (k, c). }
  rewrite Hkeys in Hk. apply elem_of_seqZ in Hk. lia.
Qed.

Lemma start_tcp_accept_slack r s : slack 1 r s → slack 0 r (start_tcp_accept s).
Proof.
  intros (Hreg & Hacc & Hrecv). pose proof (registry_keys_below s Hreg) as Hbelow.
  destruct Hreg as (Hpos & Hkeys & Hids).
  unfold start_tcp_accept, start_udp_receive_connection_id, slack, registry_ok.
  unfold outstanding in *.
  destruct s as [cs next ep idb rb st io]. simpl in *.
  rewrite (map_insert_last next _ cs Hbelow). rewrite fmap_app, length_app.
  rewrite <- !(assoc_L (++)), !filter_app, !length_app. simpl.
  repeat split; try lia.
  - rewrite Hkeys. rewrite (seqZ_app 0 next 1) by lia. done.
  - apply Forall_app. split; [done|]. by repeat constructor.
Qed.

Lemma outstanding_delete kind (n : nat) (op : AsyncOp) (ops : list AsyncOp) :
  ops !! n = Some op →
  length (filter (λ op, kind op = true) ops)
  = (length (filter (λ op, kind op = true) (delete n ops))
     + if kind op then 1 else 0)%nat.
Proof.
  revert n. induction ops as [|op' ops IH]; intros [|n] Hn; simplify_eq/=.
  - destruct (kind op) eqn:Hk.
    + rewrite filter_cons_True by done. simpl. lia.
    + rewrite filter_cons_False by congruence. lia.
  - specialize (IH n Hn). destruct (kind op') eqn:Hk'.
    + rewrite !filter_cons_True by done. simpl. lia.
    + rewrite !filter_cons_False by congruence. done.
Qed.

Lemma delete_slack (n : nat) (op : AsyncOp) s :
  io_service s !! n = Some op →
  slack 0 0 s →
  slack (if is_tcp_accept op then 1 else 0)
    (if is_udp_receive op || is_connection_result op then 1 else 0)
    (with_io_service (delete n (io_service s)) s).
Proof.
  intros Hn (Hreg & Hacc & Hrecv). unfold slack, outstanding in *.
  pose proof (outstanding_delete is_tcp_accept n op _ Hn) as Ha.
  pose proof (outstanding_delete is_udp_receive n op _ Hn) as Hr.
  pose proof (outstanding_delete is_connection_result n op _ Hn) as Hc.
  destruct s as [cs next ep idb rb st io]. simpl in *.
  split; [done|]. destruct op; simpl in *; lia.
Qed.

Lemma async_rendezvous_slack (op : AsyncOp) s :
  is_udp_receive op || is_connection_result op = true →
  slack 0 1 s → slack 0 0 (async [op] s).
Proof.
  intros Hop (Hreg & Hacc & Hrecv). unfold slack, registry_ok, outstanding in *.
  destruct s as [cs next ep idb rb st io]. simpl in *.
  rewrite !filter_app, !length_app. split; [done|].
  destruct op; simpl in *; try done; lia.
Qed.

Lemma handle_udp_read_connection_id_slack (id : Z) (sender : udp_endpoint) s :
  slack 0 1 s →
  slack 0 0 (handle_udp_read_connection_id ec_ok
               (with_udp_connecting_remote_endpoint sender
                  (with_udp_connection_id_read_buffer id s))).
Proof.
  intros Hs. unfold handle_udp_read_connection_id, start_udp_send_connection_result.
  set (s0 := with_udp_connecting_remote_endpoint sender _).
  assert (slack 0 1 s0) as Hs0 by by destruct s.
  assert (m_udp_connection_id_read_buffer s0 = id) as -> by by destruct s.
  destruct (map_find id (connections s0)) as [c|] eqn:Hfind.
  - apply async_rendezvous_slack; [done|].
    destruct Hs0 as ((Hpos & Hkeys & Hids) & Hacc & Hrecv).
    pose proof (map_find_Forall _ _ _ _ Hfind Hids) as Hid.
    unfold slack, registry_ok, outstanding in *.
    destruct s0 as [cs next ep idb rb st io]. simpl in *.
    rewrite map_set_keys, map_set_length. repeat split; try done.
    apply map_set_Forall; [|done]. by destruct c.
  - apply async_rendezvous_slack; [done|]. by destruct s0.
Qed.

Lemma complete_server_ok s (completion : nat * IoResult) :
  server_ok s → server_ok (complete s completion).
Proof.
  intros Hok. destruct completion as [n r]. unfold complete.
  destruct (io_service s !! n) as [op|] eqn:Hn; [|done].
  pose proof (delete_slack n op s Hn (proj2 (slack_server_ok s) Hok)) as Hs1.
  set (s1 := with_io_service _ s) in *.
  destruct op, r; simpl in *; try done; apply slack_server_ok.
  - (* accept failed *) by apply slack_weaken in Hs1.
  - (* accepted *)
    apply start_tcp_accept_slack.
    eapply quiet_slack; [apply call_quiet, tame_start|].
    eapply quiet_slack; [apply call_quiet, tame_open|done].
  - eapply quiet_slack; [apply call_quiet, (tame_read_header ec_failed [])|done].
  - eapply quiet_slack; [apply call_quiet, (tame_read_header ec_ok data)|done].
  - eapply quiet_slack; [apply call_quiet, tame_read_body|done].
  - eapply quiet_slack; [apply call_quiet, tame_read_body|done].
  - eapply quiet_slack; [apply call_quiet, (tame_write_complete ec_failed)|done].
  - eapply quiet_slack; [apply call_quiet, (tame_write_complete ec_ok)|done].
  - eapply quiet_slack; [apply call_quiet, (tame_dataframe_complete ec_failed)|done].
  - eapply quiet_slack; [apply call_quiet, (tame_dataframe_complete ec_ok)|done].
  - by apply (async_rendezvous_slack UdpReceiveConnectionId).
  - by apply (async_rendezvous_slack UdpReceiveConnectionId).
  - by apply slack_weaken in Hs1.
  - by apply handle_udp_read_connection_id_slack.
Qed.

Lemma poll_server_ok (fuel : nat) (f f' : @PollFrame Script) :
  server_ok (poll_server f) →
  while fuel poll_cond (poll_body scripted_poll) f = Some f' →
  server_ok (poll_server f').
Proof.
  revert f. induction fuel as [|fuel IH]; intros f Hok; [done|].
  rewrite while_unfold. destruct (poll_cond f); [|by intros [= <-]].
  apply IH. unfold poll_body.
  assert (server_ok (start_udp_queued_data_frame_write (poll_server f))) as Hscan.
  { apply slack_server_ok. eapply quiet_slack; [apply scan_quiet|].
    by apply slack_server_ok. }
  destruct (poll_env f) as [|batch script]; simpl; [done|].
  generalize dependent (start_udp_queued_data_frame_write (poll_server f)).
  induction batch as [|completion batch IHb]; intros s0 Hs0; simpl; [done|].
  by apply IHb, complete_server_ok.
Qed.

Lemma poll_keeps_server_ok (fuel : nat) (script : Script) s (f : @PollFrame Script) :
  server_ok s → poll scripted_poll fuel script s = Some f → server_ok (poll_server f).
Proof. intros Hok. unfold poll. by apply poll_server_ok. Qed.

Lemma step_server_ok s (ev : Event) : server_ok s → server_ok (step s ev).
Proof.
  intros Hok. destruct ev as [r|id p|p|id f|script]; simpl.
  - apply slack_server_ok. eapply quiet_slack; [apply with_responses_quiet|].
    by apply slack_server_ok.
  - apply slack_server_ok. eapply quiet_slack; [apply send_notification_quiet|].
    by apply slack_server_ok.
  - apply slack_server_ok. eapply quiet_slack; [apply broadcast_quiet|].
    by apply slack_server_ok.
  - apply slack_server_ok.
    eapply quiet_slack; [apply send_controller_data_frame_quiet|].
    by apply slack_server_ok.
  - unfold update. destruct (poll scripted_poll _ script s) as [f|] eqn:Hpoll; [|done].
    exact (poll_keeps_server_ok _ _ _ _ Hok Hpoll).
Qed.

Lemma reachable_server_ok s : reachable s → server_ok s.
Proof.
  intros (id_buffer & result_buffer & events & ->). unfold run.
  assert (server_ok (startup (new_server id_buffer result_buffer))) as Hstart.
  { apply slack_server_ok, start_tcp_accept_slack.
    split; [by repeat split|]. unfold outstanding. simpl. lia. }
  generalize dependent (startup (new_server id_buffer result_buffer)).
  induction events as [|ev events IH]; intros s Hs; simpl; [done|].
  by apply IH, step_server_ok.
Qed.
End ServerInvariants.

Section Reachable.
Context `{W : Wire}.
Implicit Types (s : ServerNetworkManagerImpl) (c : ClientConnection).

Lemma map_find_is_Some {V : Type} (k : Z) (m : list (Z * V)) :
  is_Some (map_find k m) ↔ k ∈ m.*1.
Proof.
  induction m as [|[k' v'] m IH]; csimpl.
  - split; [by intros [? ?]|by intros ?%elem_of_nil].
  - rewrite elem_of_cons. case_decide; [by split; [left|eexists]|].
    rewrite IH. split; [by right|by intros [?|?]].
Qed.

(** Connection identifiers are handed out in order and never reused: in
    every reachable state the registry holds exactly the connections created
    so far, under the identifiers [0] to [next_connection_id - 1], each
    once, and a lookup returns the connection that carries the identifier
    asked for. *)
Theorem registry_holds_issued_identifiers s :
  reachable s →
  (connections s).*1 = seqZ 0 (next_connection_id s)
  ∧ NoDup (connections s).*1
  ∧ (∀ id, is_Some (map_find id (connections s)) ↔ 0 ≤ id < next_connection_id s)
  ∧ (∀ id c, map_find id (connections s) = Some c → m_connection_id c = id).
Proof.
  intros Hreach. destruct (reachable_server_ok s Hreach) as [(Hpos & Hkeys & Hids) _].
  split; [done|]. split; [rewrite Hkeys; apply NoDup_seqZ|]. split.
  - intros id. rewrite map_find_is_Some, Hkeys, elem_of_seqZ. lia.
  - intros id c Hfind. by apply (map_find_Forall _ _ _ _ Hfind Hids).
Qed.

(** In every reachable state at most one accept is outstanding, and the
    rendezvous receives and replies outstanding together number at most the
    connections created, one receive having been armed with each. *)
Theorem accept_and_rendezvous_bounded s :
  reachable s →
  (outstanding is_tcp_accept s ≤ 1)%nat
  ∧ (outstanding is_udp_receive s + outstanding is_connection_result s
     ≤ length (connections s))%nat
  ∧ Z.of_nat (length (connections s)) = next_connection_id s.
Proof.
  intros Hreach.
  destruct (reachable_server_ok s Hreach) as [(Hpos & Hkeys & _) [Hacc Hrecv]].
  split; [done|]. split; [done|].
  rewrite <- (length_fmap fst), Hkeys, length_seqZ. lia.
Qed.

Lemma quiet_outstanding kind s s' :
  (∀ op, is_connection_op op = true → kind op = false) →
  quiet s s' → outstanding kind s' = outstanding kind s.
Proof.
  intros Hkind (_ & _ & _ & ops & Hio & Hops). unfold outstanding at 1.
  rewrite Hio. by apply outstanding_app.
Qed.

Lemma complete_no_accept s (completion : nat * IoResult) :
  outstanding is_tcp_accept s = 0%nat →
  outstanding is_tcp_accept (complete s completion) = 0%nat.
Proof.
  intros Hnone. destruct completion as [n r]. unfold complete.
  destruct (io_service s !! n) as [op|] eqn:Hn; [|done].
  pose proof (outstanding_delete is_tcp_accept n op _ Hn) as Hdel.
  fold (outstanding is_tcp_accept s) in Hdel.
  set (s1 := with_io_service _ s).
  assert (outstanding is_tcp_accept s1 = 0%nat ∧ is_tcp_accept op = false) as [Hs1 Hop].
  { unfold outstanding, s1. destruct s. simpl in *. destruct (is_tcp_accept op); lia. }
  assert (∀ op, is_connection_op op = true → is_tcp_accept op = false) as Hkind
    by by intros [].
  destruct op, r; try done; cbv beta iota delta [run_handler]; try done;
    try (rewrite (quiet_outstanding is_tcp_accept s1) by (done || apply call_quiet;
           first [apply tame_read_body | apply (tame_read_header ec_ok)
                 | apply (tame_read_header ec_failed)
                 | apply (tame_write_complete ec_ok)
                 | apply (tame_write_complete ec_failed)
                 | apply (tame_dataframe_complete ec_ok)
                 | apply (tame_dataframe_complete ec_failed)]);
         done).
  - unfold handle_udp_write_connection_result, start_udp_receive_connection_id.
    by rewrite outstanding_async, Hs1.
  - unfold handle_udp_write_connection_result, start_udp_receive_connection_id.
    by rewrite outstanding_async, Hs1.
  - unfold handle_udp_read_connection_id, start_udp_send_connection_result.
    set (s0 := store_datagram _ _).
    assert (outstanding is_tcp_accept s0 = 0%nat) as Hs0
      by (unfold outstanding, s0, s1, store_datagram in *; by destruct s).
    destruct (map_find _ _); rewrite outstanding_async; simpl.
    + unfold outstanding in *. destruct s0. simpl in *. lia.
    + unfold outstanding in *. destruct s0. simpl in *. lia.
Qed.

Lemma poll_no_accept (fuel : nat) (f f' : @PollFrame Script) :
  outstanding is_tcp_accept (poll_server f) = 0%nat →
  while fuel poll_cond (poll_body scripted_poll) f = Some f' →
  outstanding is_tcp_accept (poll_server f') = 0%nat.
Proof.
  revert f. induction fuel as [|fuel IH]; intros f Hnone; [done|].
  rewrite while_unfold. destruct (poll_cond f); [|by intros [= <-]].
  apply IH. unfold poll_body.
  assert (outstanding is_tcp_accept (start_udp_queued_data_frame_write (poll_server f))
          = 0%nat) as Hscan.
  { rewrite (quiet_outstanding _ (poll_server f)); [done|by intros []|apply scan_quiet]. }
  destruct (poll_env f) as [|batch script]; simpl; [done|].
  generalize dependent (start_udp_queued_data_frame_write (poll_server f)).
  induction batch as [|completion batch IHb]; intros s0 Hs0; simpl; [done|].
  by apply IHb, complete_no_accept.
Qed.

Lemma poll_keeps_no_accept (fuel : nat) (script : Script) s (f : @PollFrame Script) :
  outstanding is_tcp_accept s = 0%nat →
  poll scripted_poll fuel script s = Some f →
  outstanding is_tcp_accept (poll_server f) = 0%nat.
Proof. intros Hnone. unfold poll. by apply poll_no_accept. Qed.

Lemma step_no_accept s (ev : Event) :
  outstanding is_tcp_accept s = 0%nat → outstanding is_tcp_accept (step s ev) = 0%nat.
Proof.
  intros Hnone.
  assert (∀ op, is_connection_op op = true → is_tcp_accept op = false) as Hkind
    by by intros [].
  destruct ev as [r|id p|p|id f|script]; simpl.
  - by rewrite (quiet_outstanding _ s) by (done || apply with_responses_quiet).
  - by rewrite (quiet_outstanding _ s) by (done || apply send_notification_quiet).
  - by rewrite (quiet_outstanding _ s) by (done || apply broadcast_quiet).
  - by rewrite (quiet_outstanding _ s) by (done || apply send_controller_data_frame_quiet).
  - unfold update. destruct (poll scripted_poll _ script s) as [f|] eqn:Hpoll; [|done].
    exact (poll_keeps_no_accept _ _ _ _ Hnone Hpoll).
Qed.

(** A failed accept ends accepting: the handler arms nothing, and since the
    only place an accept is armed is the handler of a successful accept, no
    accept is outstanding ever after, whatever the server is asked to do. *)
Theorem accept_failure_is_final s (n : nat) (id : Z) (events : list Event) :
  reachable s →
  io_service s !! n = Some (TcpAccept id) →
  let failed := complete s (n, io_failed) in
  connections failed = connections s
  ∧ outstanding is_tcp_accept failed = 0%nat
  ∧ outstanding is_tcp_accept (run events failed) = 0%nat.
Proof.
  intros Hreach Hn failed.
  destruct (reachable_server_ok s Hreach) as [_ [Hacc _]].
  pose proof (outstanding_delete is_tcp_accept n _ _ Hn) as Hdel.
  fold (outstanding is_tcp_accept s) in Hdel. simpl in Hdel.
  assert (connections failed = connections s
          ∧ outstanding is_tcp_accept failed = 0%nat) as [Hconns Hnone].
  { unfold failed, complete. rewrite Hn. simpl. unfold outstanding.
    destruct s. simpl in *. split; [done|lia]. }
  split; [done|]. split; [done|].
  unfold run. clearbody failed. clear Hconns. revert failed Hnone.
  induction events as [|ev events IH]; intros s0 Hs0; simpl; [done|].
  by apply IH, step_no_accept.
Qed.
End Reachable.

Lemma registry_holds_issued_identifiers_witness :
  let s := run (W := small_wire) [ev_update [[(0%nat, io_done)]]]
             (startup (new_server 0 false)) in
  (connections s).*1 = seqZ 0 (next_connection_id s)
  ∧ NoDup (connections s).*1
  ∧ (∀ id, is_Some (map_find id (connections s)) ↔ 0 ≤ id < next_connection_id s)
  ∧ (∀ id c, map_find id (connections s) = Some c → m_connection_id c = id).
Proof.
  apply (registry_holds_issued_identifiers (W := small_wire)).
  by eexists 0, false, _.
Defined.

Lemma accept_and_rendezvous_bounded_witness :
  let s := run (W := small_wire) [ev_update [[(0%nat, io_done)]]]
             (startup (new_server 0 false)) in
  (outstanding is_tcp_accept s ≤ 1)%nat
  ∧ (outstanding is_udp_receive s + outstanding is_connection_result s
     ≤ length (connections s))%nat
  ∧ Z.of_nat (length (connections s)) = next_connection_id s.
Proof.
  apply (accept_and_rendezvous_bounded (W := small_wire)).
  by eexists 0, false, _.
Defined.

Lemma accept_failure_is_final_witness :
  let s := startup (W := small_wire) (new_server 0 false) in
  let events := [ev_send_controller_data_frame 0 small_frame;
                 ev_update [[(1%nat, io_done)]]] in
  let failed := complete s (0%nat, io_failed) in
  connections failed = connections s
  ∧ outstanding is_tcp_accept failed = 0%nat
  ∧ outstanding is_tcp_accept (run events failed) = 0%nat.
Proof.
  intros s events.
  apply (accept_failure_is_final (W := small_wire) s 0 0 events).
  - by eexists 0, false, [].
  - reflexivity.
Defined.

(** ** Accepting and failed reads *)

Section AcceptRead.
Context `{W : Wire}.
Implicit Types (s : ServerNetworkManagerImpl) (c : ClientConnection).

(** Each [start_tcp_accept] registers a new connection before any client is
    there: in a reachable state the next identifier is not in the registry,
    the new connection goes to the end of it under that identifier, idle and
    not stopped, and one accept and one rendezvous receive are armed. *)
Theorem start_tcp_accept_registers_next s :
  reachable s →
  let id := next_connection_id s in
  map_find id (connections s) = None
  ∧ connections (start_tcp_accept s) = connections s ++ [(id, new_connection id)]
  ∧ next_connection_id (start_tcp_accept s) = id + 1
  ∧ io_service (start_tcp_accept s)
    = io_service s ++ [TcpAccept id; UdpReceiveConnectionId]
  ∧ responses (start_tcp_accept s) = responses s.
Proof.
  intros Hreach id. destruct (reachable_server_ok s Hreach) as [Hreg _].
  pose proof (registry_keys_below s Hreg) as Hbelow.
  destruct Hreg as (Hpos & Hkeys & _). split.
  - apply eq_None_not_Some. rewrite map_find_is_Some, Hkeys, elem_of_seqZ.
    unfold id. lia.
  - unfold start_tcp_accept, start_udp_receive_connection_id, id.
    destruct s as [cs next ep idb rb st io]. simpl in *.
    rewrite (map_insert_last next _ cs Hbelow). by rewrite <- (assoc_L (++)).
Qed.

Lemma map_set_same {V : Type} (k : Z) (v : V) (m : list (Z * V)) :
  map_find k m = Some v → map_set k v m = m.
Proof.
  induction m as [|[k' v'] m IH]; simpl; [done|].
  case_decide; [by intros [= ->]; subst|]. intros Hfind. by rewrite IH.
Qed.

(** A failed read of a request header or body is dropped without a trace:
    the read is no longer outstanding and nothing else changes.  The
    connection is not stopped and no read is armed again, so it reads no
    further request. *)
Theorem failed_read_changes_nothing s (n : nat) (op : AsyncOp) :
  io_service s !! n = Some op →
  (∃ id, op = TcpReadHeader id) ∨ (∃ id msg_len, op = TcpReadBody id msg_len) →
  complete s (n, io_failed) = with_io_service (delete n (io_service s)) s.
Proof.
  intros Hn Hop. unfold complete. rewrite Hn.
  assert (∀ id s1, call id (λ store c, (store, c, [])) s1 = s1) as Hcall.
  { intros id s1. unfold call.
    destruct (map_find id (connections s1)) as [c|] eqn:Hfind; [|done].
    rewrite (map_set_same _ _ _ Hfind). destruct s1. unfold async. simpl.
    by rewrite app_nil_r. }
  destruct Hop as [[id ->]|(id & msg_len & ->)]; simpl; apply Hcall.
Qed.
End AcceptRead.

Lemma start_tcp_accept_registers_next_witness :
  let s := startup (W := small_wire) (new_server 0 false) in
  let id := next_connection_id s in
  map_find id (connections s) = None
  ∧ connections (start_tcp_accept s) = connections s ++ [(id, new_connection id)]
  ∧ next_connection_id (start_tcp_accept s) = id + 1
  ∧ io_service (start_tcp_accept s)
    = io_service s ++ [TcpAccept id; UdpReceiveConnectionId]
  ∧ responses (start_tcp_accept s) = responses s.
Proof.
  apply (start_tcp_accept_registers_next (W := small_wire)).
  by eexists 0, false, [].
Defined.

Lemma failed_read_changes_nothing_witness :
  let s := run (W := small_wire) [ev_update [[(0%nat, io_done)]]]
             (startup (new_server 0 false)) in
  complete s (2%nat, io_failed) = with_io_service (delete 2%nat (io_service s)) s.
Proof.
  intros s.
  apply (failed_read_changes_nothing (W := small_wire) s 2 (TcpReadHeader 0)).
  - reflexivity.
  - left. by exists 0.
Defined.

(** ** Datagrams taken before the handlers run *)

Section DatagramsAsCompletions.
Context `{W : Wire}.
Implicit Types (s : ServerNetworkManagerImpl) (ops : list AsyncOp).

Lemma remove_receives_0 ops : remove_receives 0 ops = ops.
Proof. by destruct ops. Qed.

Lemma remove_receives_snoc (n : nat) ops (op : AsyncOp) :
  is_udp_receive op = false →
  remove_receives n (ops ++ [op]) = remove_receives n ops ++ [op].
Proof.
  intros Hop. revert n. induction ops as [|a ops IH]; intros [|n]; simpl;
    rewrite ?Hop; try done.
  destruct (is_udp_receive a); by rewrite IH.
Qed.

Lemma remove_receives_oldest (k : nat) ops :
  (0 < length (filter (λ op, is_udp_receive op = true) ops))%nat →
  ∃ i, ops !! i = Some UdpReceiveConnectionId
       ∧ remove_receives (S k) ops = remove_receives k (delete i ops)
       ∧ S (length (filter (λ op, is_udp_receive op = true) (delete i ops)))
         = length (filter (λ op, is_udp_receive op = true) ops).
Proof.
  induction ops as [|op ops IH]; [simpl; lia|].
  destruct (is_udp_receive op) eqn:Hop.
  - intros _. exists 0%nat. rewrite filter_cons_True by done.
    destruct op; try done; simpl; by rewrite ?remove_receives_0.
  - rewrite filter_cons_False by by rewrite Hop.
    intros Hpos. destruct (IH Hpos) as (i & Hi & Hrem & Hlen).
    exists (S i). split; [done|]. simpl. rewrite Hop, Hrem.
    rewrite filter_cons_False by by rewrite Hop.
    split; [|done]. destruct k; simpl; by rewrite ?Hop, ?remove_receives_0.
Qed.

Lemma store_datagram_last (d : Z * udp_endpoint) (taken : list (Z * udp_endpoint)) s :
  store_datagram d (foldl (λ s datagram, store_datagram datagram s) s taken)
  = store_datagram d s.
Proof.
  revert s. induction taken as [|a taken IH]; intros s; simpl; [done|].
  rewrite IH. by destruct s.
Qed.

(** The handler of the oldest receive, run after the last store, is the
    completion of that receive delivering the last datagram. *)
Lemma handler_after_stores (k i : nat) (d : Z * udp_endpoint) s :
  io_service s !! i = Some UdpReceiveConnectionId →
  remove_receives (S k) (io_service s) = remove_receives k (delete i (io_service s)) →
  let s2 := complete s (i, io_received d.1 d.2) in
  handle_udp_read_connection_id ec_ok
    (with_io_service (remove_receives (S k) (io_service s)) (store_datagram d s))
  = with_io_service (remove_receives k (io_service s2)) (store_datagram d s2)
  ∧ store_datagram d s2 = s2
  ∧ outstanding is_udp_receive s2
    = length (filter (λ op, is_udp_receive op = true) (delete i (io_service s))).
Proof.
  intros Hi Hrem. unfold complete. rewrite Hi.
  destruct d as [id sender]. destruct s as [conns next ep idb rb store io].
  simpl in *. unfold handle_udp_read_connection_id, store_datagram, outstanding. simpl.
  destruct (map_find id conns); simpl;
    rewrite remove_receives_snoc, Hrem, filter_app, length_app by done;
    (split; [done|]); (split; [done|]); simpl; lia.
Qed.

Lemma handlers_after_stores (k : nat) (d : Z * udp_endpoint) s :
  (k ≤ outstanding is_udp_receive s)%nat →
  ∃ batch,
    length batch = k
    ∧ Forall (λ completion, completion.2 = io_received d.1 d.2) batch
    ∧ Nat.iter k (handle_udp_read_connection_id ec_ok)
        (with_io_service (remove_receives k (io_service s)) (store_datagram d s))
      = store_datagram d (foldl complete s batch)
    ∧ ((0 < k)%nat → store_datagram d (foldl complete s batch) = foldl complete s batch).
Proof.
  revert s. induction k as [|k IH]; intros s Hk.
  - exists []. simpl. rewrite remove_receives_0.
    repeat split; [done|by destruct s|lia].
  - destruct (remove_receives_oldest k (io_service s)) as (i & Hi & Hrem & Hlen);
      [unfold outstanding in Hk; lia|].
    destruct (handler_after_stores k i d s Hi Hrem) as (Hstep & Hstored & Hout).
    destruct (IH (complete s (i, io_received d.1 d.2))) as (batch & Hlenb & Hall & Hiter & Hkeep);
      [unfold outstanding in Hk; lia|].
    exists ((i, io_received d.1 d.2) :: batch).
    rewrite Nat.iter_succ_r, Hstep, Hiter. simpl.
    split; [by rewrite Hlenb|]. split; [by constructor|].
    split; [done|]. intros _.
    destruct k; [|apply Hkeep; lia].
    destruct batch; [|done]. exact Hstored.
Qed.

(** Several receives take a datagram each before their handlers run: what
    follows is what the completions of those receives do when each of them
    delivers the last datagram that was stored.  So every handler acts on
    the last datagram, and the environment of [scripted_poll] covers the
    case. *)
Theorem datagrams_are_completions (datagrams : list (Z * udp_endpoint)) s :
  ∃ batch : list (nat * IoResult),
    receive_datagrams datagrams s = foldl complete s batch
    ∧ scripted_poll [batch] s = ([], receive_datagrams datagrams s)
    ∧ length batch = (length datagrams `min` outstanding is_udp_receive s)%nat
    ∧ ∀ d, last (take (outstanding is_udp_receive s) datagrams) = Some d →
           Forall (λ completion, completion.2 = io_received d.1 d.2) batch.
Proof.
  unfold receive_datagrams.
  destruct (take (outstanding is_udp_receive s) datagrams) as [|d0 taken0] eqn:Htake.
  - exists []. simpl. rewrite remove_receives_0.
    assert (length (take (outstanding is_udp_receive s) datagrams) = 0%nat) as Hlen
      by by rewrite Htake.
    rewrite length_take in Hlen.
    split; [by destruct s|]. split; [by destruct s|]. split; [simpl; lia|done].
  - assert (is_Some (last (d0 :: taken0))) as [d Hlast].
    { rewrite last_is_Some. done. }
    apply last_Some in Hlast as [init Hinit]. rewrite Hinit.
    rewrite foldl_snoc, store_datagram_last.
    assert (length (init ++ [d]) ≤ outstanding is_udp_receive s)%nat as Hk.
    { rewrite <- Hinit, <- Htake, length_take. lia. }
    assert (io_service (store_datagram d s) = io_service s) as -> by by destruct s.
    destruct (handlers_after_stores (length (init ++ [d])) d s Hk)
      as (batch & Hlenb & Hall & Hiter & Hkeep).
    exists batch. rewrite Hiter, Hkeep by (rewrite length_app; simpl; lia).
    split; [done|]. split; [done|]. split.
    + rewrite Hlenb, <- Hinit, <- Htake, length_take. lia.
    + intros d'. rewrite last_snoc. by intros [= <-].
Qed.
End DatagramsAsCompletions.
